(** * The hit-and-run animation of an IRIS region

    A shallow embedding of [AnimateIris] from
    [trajectories/iris_in_configuration_space.ipynb] and the properties of
    the random walk it performs inside a convex region [A q <= b].

    Numbers.  The notebook computes with numpy's float64.  Every finite
    float64 is a rational, and the embedding computes with exact rationals
    ([Q]): rounding is idealised away, and the numerical tolerance of the
    solver is an explicit rational parameter [tol].  Equality of numbers is
    [Qeq] and equality of vectors is [veq], its pointwise lifting.

    Collaborators.  The linear-program solver ([Solve]), the random
    generator ([rng.standard_normal]), the Meshcat button and the
    [running_as_notebook] flag belong to pydrake, numpy and the
    [manipulation] package.  They are the variables of [Section Walker]. *)

From Stdlib Require Import QArith Qround Lqa ZArith Lia List Bool.
Import ListNotations.

Local Open Scope Q_scope.

(** ** Vectors and matrices (numpy arrays of float64) *)

Definition vec := list Q.
Definition matrix := list vec.          (* the rows of a 2-d array *)

(** [t * v] for a scalar [t]. *)
Definition vscale (t : Q) (v : vec) : vec := map (Qmult t) v.

(** [u + v], entry by entry.  Both operands of the one sum the notebook
    forms have [nq] entries; on operands of different lengths numpy raises,
    and the theorems below carry the equal-length hypothesis. *)
Fixpoint vadd (u v : vec) : vec :=
  match u, v with
  | x :: u', y :: v' => (x + y) :: vadd u' v'
  | _, _ => []
  end.

(** The inner product [u . v]. *)
Fixpoint dot (u v : vec) : Q :=
  match u, v with
  | x :: u', y :: v' => x * y + dot u' v'
  | _, _ => 0
  end.

(** [np.ones(n)]. *)
Definition ones (n : nat) : vec := repeat 1 n.

(** Pointwise equality of vectors. *)
Definition veq (u v : vec) : Prop := Forall2 Qeq u v.

(** Distance at most [tol] in every coordinate. *)
Definition vclose (tol : Q) (u v : vec) : Prop :=
  Forall2 (fun x y => x - y <= tol /\ y - x <= tol) u v.

(** ** The interpolation grid

    [np.arange(start, stop, step)] has [ceil((stop - start) / step)]
    entries, the [i]-th being [start + i * step]; [np.append(a, x)] puts
    [x] after the entries of [a]. *)

Definition arange (start stop step : Q) : list Q :=
  map (fun i => start + inject_Z (Z.of_nat i) * step)
      (seq 0 (Z.to_nat (Qceiling ((stop - start) / step)))).

Definition np_append (a : list Q) (x : Q) : list Q := a ++ [x].

(** The values of [t] in [for t in np.append(np.arange(0, 1, .05), 1)]. *)
Definition t_grid : list Q := np_append (arange 0 1 (5 # 100)) 1.

(** [qs = t * q_next + (1 - t) * q]. *)
Definition interp (q q_next : vec) (t : Q) : vec :=
  vadd (vscale t q_next) (vscale (1 - t) q).

(** The poses one pass of the [for] loop sets and publishes, in order. *)
Definition waypoints (q q_next : vec) : list vec :=
  map (interp q q_next) t_grid.

(** ** The region and the linear program *)

(** A pydrake [HPolyhedron]: the set [{q | A q <= b}].  [ChebyshevCenter]
    is the value its method of that name returns. *)
Record HPolyhedron := mkHPolyhedron {
  A : matrix;
  b : vec;
  ChebyshevCenter : vec
}.

(** A bound of a linear constraint: a number or an infinity. *)
Inductive bound := NegInf | Fin (x : Q) | PosInf.

(** [0 * region.b() - np.inf]: minus infinity in every entry. *)
Definition minus_inf_like (v : vec) : list bound := map (fun _ => NegInf) v.

(** The program the notebook builds: decision variables [qvar] ([nq] of
    them), one linear constraint [lb <= A q <= ub], one linear cost
    [coeffs . q].  pydrake's [MathematicalProgram] is a minimisation
    problem: [Solve] minimises the sum of the costs under the constraints. *)
Record MathematicalProgram := mkProg {
  num_vars : nat;
  con_A : matrix;
  con_lb : list bound;
  con_ub : list bound;
  cost_coeffs : vec
}.

(** [prog.AddLinearConstraint(region.A(), 0 * region.b() - np.inf,
    region.b(), qvar)] followed by [prog.AddLinearCost(np.ones((nq, 1)),
    qvar)], on a fresh program with [nq] variables. *)
Definition make_prog (nq : nat) (region : HPolyhedron) : MathematicalProgram :=
  {| num_vars := nq;
     con_A := A region;
     con_lb := minus_inf_like (b region);
     con_ub := map Fin (b region);
     cost_coeffs := ones nq |}.

(** [cost.evaluator().UpdateCoefficients(direction)]: the program is
    mutated in place, only its cost changes. *)
Definition UpdateCoefficients (prog : MathematicalProgram) (direction : vec)
  : MathematicalProgram :=
  {| num_vars := num_vars prog;
     con_A := con_A prog;
     con_lb := con_lb prog;
     con_ub := con_ub prog;
     cost_coeffs := direction |}.

Record MathematicalProgramResult := mkResult {
  is_success : bool;
  GetSolution : vec
}.

(** [x <= bd + tol] and [bd - tol <= x] for a bound [bd]. *)
Definition le_bound (tol x : Q) (bd : bound) : Prop :=
  match bd with
  | NegInf => False
  | Fin u => x <= u + tol
  | PosInf => True
  end.

Definition ge_bound (tol x : Q) (bd : bound) : Prop :=
  match bd with
  | NegInf => True
  | Fin l => l - tol <= x
  | PosInf => False
  end.

(** Row [i] of the constraint holds at [x] within [tol]. *)
Fixpoint rows_hold (tol : Q) (rows : matrix) (lb ub : list bound) (x : vec)
  : Prop :=
  match rows, lb, ub with
  | r :: rows', l :: lb', u :: ub' =>
      ge_bound tol (dot r x) l /\ le_bound tol (dot r x) u /\
      rows_hold tol rows' lb' ub' x
  | _, _, _ => True
  end.

(** [x] satisfies the constraints of [prog] within [tol]. *)
Definition prog_feasible (tol : Q) (prog : MathematicalProgram) (x : vec)
  : Prop :=
  length x = num_vars prog /\
  rows_hold tol (con_A prog) (con_lb prog) (con_ub prog) x.

(** [x] is a solution of [prog] within [tol]: feasible, and no feasible
    point has a cost smaller by more than [tol]. *)
Definition prog_optimal (tol : Q) (prog : MathematicalProgram) (x : vec)
  : Prop :=
  prog_feasible tol prog x /\
  forall y, prog_feasible 0 prog y ->
            dot (cost_coeffs prog) x <= dot (cost_coeffs prog) y + tol.

(** Every inequality [A q <= b] of the region holds at [q] within [tol]. *)
Fixpoint ineqs_hold (tol : Q) (rows : matrix) (bs : vec) (q : vec) : Prop :=
  match rows, bs with
  | r :: rows', u :: bs' => dot r q <= u + tol /\ ineqs_hold tol rows' bs' q
  | _, _ => True
  end.

Definition in_region (tol : Q) (region : HPolyhedron) (q : vec) : Prop :=
  ineqs_hold tol (A region) (b region) q.

(** The same, as a test. *)
Fixpoint ineqs_holdb (tol : Q) (rows : matrix) (bs : vec) (q : vec) : bool :=
  match rows, bs with
  | r :: rows', u :: bs' => Qle_bool (dot r q) (u + tol) && ineqs_holdb tol rows' bs' q
  | _, _ => true
  end.

Definition in_regionb (tol : Q) (region : HPolyhedron) (q : vec) : bool :=
  ineqs_holdb tol (A region) (b region) q.

(** ** Effects

    What the notebook does to its collaborators, in the order it does it. *)

Inductive event :=
| EvPublish (pose : vec)          (* ForcedPublish of the plant's positions *)
| EvPrint                         (* print("Press the 'Stop Animation' ...") *)
| EvAddButton                     (* meshcat.AddButton("Stop Animation", ...) *)
| EvDeleteButton                  (* meshcat.DeleteButton("Stop Animation") *)
| EvPoll (clicks : Z)             (* meshcat.GetButtonClicks(...) returned *)
| EvSample (direction : vec)      (* rng.standard_normal(nq) returned *)
| EvSolve (prog : MathematicalProgram) (result : MathematicalProgramResult)
| EvSleep.                        (* time.sleep(.05) *)

(** The only exception the function itself raises. *)
Inductive exn := AssertionError.

(** A call returns a value, raises, or (the model only) exhausts the bound
    put on the iterations of the [while] loop. *)
Inductive outcome (T : Type) :=
| Ok (x : T)
| Raise (e : exn)
| OutOfFuel.
Arguments Ok {T} x.
Arguments Raise {T} e.
Arguments OutOfFuel {T}.

(** The poses published, in order. *)
Fixpoint published (l : list event) : list vec :=
  match l with
  | [] => []
  | EvPublish p :: l' => p :: published l'
  | _ :: l' => published l'
  end.

(** How many directions were drawn, LPs solved, polls made, sleeps taken. *)
Definition is_sample (e : event) : bool :=
  match e with EvSample _ => true | _ => false end.
Definition is_solve (e : event) : bool :=
  match e with EvSolve _ _ => true | _ => false end.
Definition is_poll (e : event) : bool :=
  match e with EvPoll _ => true | _ => false end.
Definition is_sleep (e : event) : bool :=
  match e with EvSleep => true | _ => false end.
Definition count (f : event -> bool) (l : list event) : nat :=
  length (filter f l).

Section Walker.

(** The state of a numpy [Generator]. *)
Variable RngState : Type.
(** [rng.standard_normal(n)]: the sample and the generator's next state. *)
Variable standard_normal : nat -> RngState -> vec * RngState.
(** pydrake's [Solve]. *)
Variable Solve : MathematicalProgram -> MathematicalProgramResult.
(** What the [k]-th call (from 0) of [meshcat.GetButtonClicks("Stop
    Animation")] returns: the clicks of the user so far. *)
Variable button_clicks : nat -> Z.
(** [manipulation.running_as_notebook]. *)
Variable running_as_notebook : bool.
(** [plant.num_positions()]. *)
Variable nq : nat.

(** Everything outside the function's local variables.  [region] is the
    object the argument of that name refers to; [rng] is the generator
    [np.random.default_rng()] creates, whose seed is fresh entropy of the
    operating system: an input of the model. *)
Record World := mkWorld {
  region : HPolyhedron;
  rng : RngState;
  positions : vec;                (* the positions in [plant_context] *)
  polls : nat;                    (* calls of [GetButtonClicks] so far *)
  log : list event                (* oldest first *)
}.

Definition M (T : Type) : Type := World -> outcome T * World.

Definition ret {T} (x : T) : M T := fun w => (Ok x, w).

Definition bind {T U} (c : M T) (k : T -> M U) : M U :=
  fun w =>
    match c w with
    | (Ok x, w') => k x w'
    | (Raise e, w') => (Raise e, w')
    | (OutOfFuel, w') => (OutOfFuel, w')
    end.

Notation "x <- c ;; k" := (bind c (fun x => k))
  (at level 61, c at next level, right associativity).
Notation "c ;; k" := (bind c (fun _ => k))
  (at level 61, right associativity).

Definition emit (e : event) : M unit :=
  fun w => (Ok tt, mkWorld (region w) (rng w) (positions w) (polls w)
                           (log w ++ [e])).

(** [assert c]. *)
Definition py_assert (c : bool) : M unit :=
  fun w => if c then (Ok tt, w) else (Raise AssertionError, w).

(** [for x in xs: body(x)]. *)
Fixpoint for_each {T} (xs : list T) (body : T -> M unit) : M unit :=
  match xs with
  | [] => ret tt
  | x :: xs' => body x ;; for_each xs' body
  end.

(** The accessors of the region: they read it and leave it alone. *)
Definition region_A : M matrix := fun w => (Ok (A (region w)), w).
Definition region_b : M vec := fun w => (Ok (b (region w)), w).
Definition region_ChebyshevCenter : M vec :=
  fun w => (Ok (ChebyshevCenter (region w)), w).

(** [plant.SetPositions(plant_context, q)]. *)
Definition SetPositions (q : vec) : M unit :=
  fun w => (Ok tt, mkWorld (region w) (rng w) q (polls w) (log w)).

(** [visualizer.ForcedPublish(visualizer_context)]: the pose shown is the
    one the plant's context holds. *)
Definition ForcedPublish : M unit :=
  fun w => emit (EvPublish (positions w)) w.

(** [meshcat.GetButtonClicks("Stop Animation")]. *)
Definition GetButtonClicks : M Z :=
  fun w =>
    let c := button_clicks (polls w) in
    (Ok c, mkWorld (region w) (rng w) (positions w) (S (polls w))
                   (log w ++ [EvPoll c])).

(** [rng.standard_normal(n)]. *)
Definition rng_standard_normal (n : nat) : M vec :=
  fun w =>
    let (d, s) := standard_normal n (rng w) in
    (Ok d, mkWorld (region w) s (positions w) (polls w)
                   (log w ++ [EvSample d])).

(** [Solve(prog)]. *)
Definition call_Solve (prog : MathematicalProgram)
  : M MathematicalProgramResult :=
  fun w => let r := Solve prog in
           (Ok r, mkWorld (region w) (rng w) (positions w) (polls w)
                          (log w ++ [EvSolve prog r])).

(** The body of the [for] loop at one value of [t]. *)
Definition show_pose (q q_next : vec) (t : Q) : M unit :=
  let qs := interp q q_next t in
  SetPositions qs ;;
  ForcedPublish ;;
  if running_as_notebook then emit EvSleep else ret tt.

(** The function up to its [while] loop: the pose of the Chebyshev center
    is shown, the button is added, the program is built.  It returns the
    local variables [q] and [prog]; the local variable [active_face] is
    set to [None] and never read. *)
Definition AnimateIris_init : M (vec * MathematicalProgram) :=
  q <- region_ChebyshevCenter ;;
  SetPositions q ;;
  ForcedPublish ;;
  emit EvPrint ;;
  emit EvAddButton ;;
  rA <- region_A ;;
  rb <- region_b ;;
  let prog := {| num_vars := nq;
                 con_A := rA;
                 con_lb := minus_inf_like rb;
                 con_ub := map Fin rb;
                 cost_coeffs := ones nq |} in
  ret (q, prog).

(** One pass of the body of the [while] loop, down to [q = q_next].  It
    returns the new values of [q] and [prog]. *)
Definition AnimateIris_step (q : vec) (prog : MathematicalProgram)
  : M (vec * MathematicalProgram) :=
  direction <- rng_standard_normal nq ;;
  let prog := UpdateCoefficients prog direction in
  result <- call_Solve prog ;;
  py_assert (is_success result) ;;
  let q_next := GetSolution result in
  for_each t_grid (show_pose q q_next) ;;
  ret (q_next, prog).

(** The [while] loop, with a bound [fuel] on the evaluations of its
    condition.  It returns the local variables at the exit. *)
Fixpoint AnimateIris_loop (fuel : nat) (q : vec) (prog : MathematicalProgram)
  : M (vec * MathematicalProgram) :=
  match fuel with
  | O => fun w => (OutOfFuel, w)
  | S fuel' =>
      clicks <- GetButtonClicks ;;
      if (clicks <? 1)%Z then
        st <- AnimateIris_step q prog ;;
        if negb running_as_notebook then ret st
        else AnimateIris_loop fuel' (fst st) (snd st)
      else ret (q, prog)
  end.

(** [AnimateIris(root_context, plant, visualizer, region, speed)].  The
    argument [speed] is not used by the function. *)
Definition AnimateIris (fuel : nat) (speed : Q) : M unit :=
  st <- AnimateIris_init ;;
  AnimateIris_loop fuel (fst st) (snd st) ;;
  emit EvDeleteButton.

(** The direction a step draws in the world [w], the program it hands to
    the solver and the result it gets. *)
Definition drawn (w : World) : vec :=
  fst (standard_normal nq (rng w)).
Definition posed (prog : MathematicalProgram) (w : World)
  : MathematicalProgram :=
  UpdateCoefficients prog (drawn w).
Definition solved (prog : MathematicalProgram) (w : World)
  : MathematicalProgramResult :=
  Solve (posed prog w).

(** The world after a poll. *)
Definition polled (w : World) : World :=
  mkWorld (region w) (rng w) (positions w) (S (polls w))
          (log w ++ [EvPoll (button_clicks (polls w))]).


End Walker.

Arguments mkWorld {RngState}.
Arguments region {RngState}.
Arguments rng {RngState}.
Arguments positions {RngState}.
Arguments polls {RngState}.
Arguments log {RngState}.

(** ** Concrete collaborators, for running the function *)

(** The square [|q1| <= 1, |q2| <= 1] with its center. *)
Definition unit_square : HPolyhedron :=
  {| A := [[1; 0]; [-1; 0]; [0; 1]; [0; -1]];
     b := [1; 1; 1; 1];
     ChebyshevCenter := [0; 0] |}.



(** A solver for the programs over the box [-1 <= q_i <= 1]: the cost
    [c . q] is least where [q_i] is [-1] for [c_i > 0] and [1] for
    [c_i < 0]. *)
Definition box_corner (c : Q) : Q :=
  if Qlt_le_dec 0 c then -1 else if Qlt_le_dec c 0 then 1 else 0.

Definition unit_box_Solve (prog : MathematicalProgram)
  : MathematicalProgramResult :=
  {| is_success := true; GetSolution := map box_corner (cost_coeffs prog) |}.

(** A solver that never finds a solution. *)
Definition failing_Solve (prog : MathematicalProgram)
  : MathematicalProgramResult :=
  {| is_success := false; GetSolution := [] |}.

(** A solver for the unit box that finds no solution when the cost is the
    direction (0, 1). *)
Definition is_second_axis (c : vec) : bool :=
  match c with
  | [c1; c2] => Qeq_bool c1 0 && Qeq_bool c2 1
  | _ => false
  end.

Definition picky_Solve (prog : MathematicalProgram)
  : MathematicalProgramResult :=
  if is_second_axis (cost_coeffs prog) then failing_Solve prog
  else unit_box_Solve prog.

(** A generator that plays back a list of samples, each cut or padded with
    zeros to the length asked for. *)
Definition resize (n : nat) (d : vec) : vec := firstn n (d ++ repeat 0 n).

Definition scripted_normal (n : nat) (s : list vec) : vec * list vec :=
  match s with
  | [] => (resize n [], [])
  | d :: s' => (resize n d, s')
  end.

(** Buttons: never clicked, clicked before the first poll, clicked between
    poll [k - 1] and poll [k]. *)
Definition never_clicked (k : nat) : Z := 0%Z.
Definition already_clicked (k : nat) : Z := 1%Z.
Definition clicked_before (n : nat) (k : nat) : Z :=
  if (k <? n)%nat then 0%Z else 1%Z.

(** A world to start from: the region, the seed of the generator, no pose
    set, nothing done. *)
Definition start {RngState} (r : HPolyhedron) (seed : RngState)
  : World RngState :=
  mkWorld r seed [] 0%nat [].

(** ** The events of one step *)

(** What showing one pose logs. *)
Definition pose_events (notebook : bool) (p : vec) : list event :=
  EvPublish p :: (if notebook then [EvSleep] else []).

(** What a step that draws [d], gets [r] from the solver and passes its
    assertion logs, having started from the pose [q]. *)
Definition step_events (notebook : bool) (q d : vec)
  (prog : MathematicalProgram) (r : MathematicalProgramResult) : list event :=
  EvSample d :: EvSolve prog r ::
  flat_map (pose_events notebook) (waypoints q (GetSolution r)).

(** What a step whose assertion fails logs. *)
Definition failed_step_events (d : vec) (prog : MathematicalProgram)
  (r : MathematicalProgramResult) : list event :=
  [EvSample d; EvSolve prog r].

(** A run of whole steps, each after the poll that let it start: the log
    of steps that leave the pose [q0] and arrive, one target after the
    other, at the pose [q]. *)
Inductive whole_steps (notebook : bool) (q0 : vec)
  : list event -> vec -> Prop :=
| whole_none : whole_steps notebook q0 [] q0
| whole_more l q c d prog r :
    whole_steps notebook q0 l q ->
    (c < 1)%Z ->
    is_success r = true ->
    whole_steps notebook q0
                (l ++ EvPoll c :: step_events notebook q d prog r)
                (GetSolution r).

(** How a run of the loop ends after its whole steps: the bound on the
    iterations is hit or the loop is left by [break]; a poll finds the
    button clicked; a step is started and its assertion fails. *)
Inductive loop_end : list event -> Prop :=
| end_here : loop_end []
| end_stop c : (1 <= c)%Z -> loop_end [EvPoll c]
| end_raise c d prog r :
    (c < 1)%Z -> is_success r = false ->
    loop_end (EvPoll c :: failed_step_events d prog r).

(** The constraints of two programs are the same. *)
Definition same_constraints (p1 p2 : MathematicalProgram) : Prop :=
  num_vars p1 = num_vars p2 /\ con_A p1 = con_A p2 /\
  con_lb p1 = con_lb p2 /\ con_ub p1 = con_ub p2.

(** [l] is strictly increasing. *)
Fixpoint increasing (l : list Q) : Prop :=
  match l with
  | [] => True
  | x :: l' => match l' with [] => True | y :: _ => x < y end /\ increasing l'
  end.

(** How often [x] occurs in [l]. *)
Definition occurrences (x : Q) (l : list Q) : nat :=
  length (filter (Qeq_bool x) l).

(** ** Further observations of the log *)

Definition is_add_button (e : event) : bool :=
  match e with EvAddButton => true | _ => false end.
Definition is_delete_button (e : event) : bool :=
  match e with EvDeleteButton => true | _ => false end.

(** A call of the solver in the log reported success. *)
Definition solve_succeeded (e : event) : Prop :=
  match e with EvSolve _ r => is_success r = true | _ => True end.

(** The directions drawn, in order. *)
Fixpoint sampled (l : list event) : list vec :=
  match l with
  | [] => []
  | EvSample d :: l' => d :: sampled l'
  | _ :: l' => sampled l'
  end.

(** The programs handed to the solver, in order. *)
Fixpoint solved_progs (l : list event) : list MathematicalProgram :=
  match l with
  | [] => []
  | EvSolve p _ :: l' => p :: solved_progs l'
  | _ :: l' => solved_progs l'
  end.

(** The first [n] samples of [nq] entries a generator in the state [s]
    returns, and its state after them. *)
Fixpoint draws {RngState : Type}
  (standard_normal : nat -> RngState -> vec * RngState)
  (nq n : nat) (s : RngState) : list vec :=
  match n with
  | O => []
  | S n' => fst (standard_normal nq s)
            :: draws standard_normal nq n' (snd (standard_normal nq s))
  end.

Fixpoint rng_after {RngState : Type}
  (standard_normal : nat -> RngState -> vec * RngState)
  (nq n : nat) (s : RngState) : RngState :=
  match n with
  | O => s
  | S n' => rng_after standard_normal nq n' (snd (standard_normal nq s))
  end.

(** The events of the loop are polls, samples, solves, poses and sleeps:
    a test that is false on all of these finds nothing in its log. *)
Definition quiet (f : event -> bool) : Prop :=
  (forall c, f (EvPoll c) = false) /\ (forall d, f (EvSample d) = false) /\
  (forall p r, f (EvSolve p r) = false) /\
  (forall p, f (EvPublish p) = false) /\ f EvSleep = false.

(** * Properties *)

Arguments t_grid : simpl never.
Arguments waypoints : simpl never.

(** ** Vectors *)

Lemma vscale_length t v : length (vscale t v) = length v.
Proof. apply length_map. Qed.

Lemma vadd_length u v : length u = length v -> length (vadd u v) = length u.
Proof.
  revert v; induction u as [|x u IH]; intros [|y v] H; simpl in *;
    try discriminate; auto.
Qed.

Lemma interp_0 q q_next t :
  t == 0 -> length q = length q_next -> veq (interp q q_next t) q.
Proof.
  intros Ht. revert q_next.
  induction q as [|x q IH]; intros [|y q_next] H; simpl in *;
    try discriminate; try constructor.
  - rewrite Ht. ring.
  - apply IH. congruence.
Qed.

Lemma interp_1 q q_next t :
  t == 1 -> length q = length q_next -> veq (interp q q_next t) q_next.
Proof.
  intros Ht. revert q_next.
  induction q as [|x q IH]; intros [|y q_next] H; simpl in *;
    try discriminate; try constructor.
  - rewrite Ht. ring.
  - apply IH. congruence.
Qed.

(** The inner product is linear along the segment. *)
Lemma dot_interp r q q_next t :
  length q = length q_next ->
  dot r (interp q q_next t) == t * dot r q_next + (1 - t) * dot r q.
Proof.
  revert q q_next.
  induction r as [|a r IH]; intros [|x q] [|y q_next] H; simpl in *;
    try discriminate; try ring.
  unfold interp in IH. rewrite IH by congruence. ring.
Qed.

(** A convex combination of two points that satisfy the inequalities
    within [tol] satisfies them within [tol]. *)
Lemma ineqs_hold_interp tol rows bs q q_next t :
  0 <= t -> t <= 1 -> length q = length q_next ->
  ineqs_hold tol rows bs q -> ineqs_hold tol rows bs q_next ->
  ineqs_hold tol rows bs (interp q q_next t).
Proof.
  intros H0 H1 Hlen. revert bs.
  induction rows as [|r rows IH]; intros [|u bs]; simpl; auto.
  intros [Hq Hq'] [Hn Hn']. split; auto.
  rewrite dot_interp by assumption.
  assert (t * dot r q_next <= t * (u + tol)) by nra.
  assert ((1 - t) * dot r q <= (1 - t) * (u + tol)) by nra.
  lra.
Qed.

(** ** The grid *)

Lemma t_grid_length : length t_grid = 21%nat.
Proof. reflexivity. Qed.

Lemma t_grid_nth i :
  (i <= 20)%nat -> nth i t_grid 0 == inject_Z (Z.of_nat i) * (1 # 20).
Proof.
  intros H.
  do 21 (destruct i as [|i]; [vm_compute; reflexivity|]).
  lia.
Qed.

Lemma t_grid_increasing : increasing t_grid.
Proof. vm_compute. repeat split; reflexivity. Qed.

Lemma t_grid_unit : Forall (fun t => 0 <= t /\ t <= 1) t_grid.
Proof.
  repeat constructor; vm_compute; discriminate.
Qed.

Lemma t_grid_split : exists t0 mid, t_grid = t0 :: mid ++ [1] /\ t0 == 0.
Proof.
  exists (hd 0 (arange 0 1 (5 # 100))), (tl (arange 0 1 (5 # 100))).
  split; reflexivity.
Qed.

Lemma waypoints_length q q_next : length (waypoints q q_next) = 21%nat.
Proof. unfold waypoints. rewrite length_map. apply t_grid_length. Qed.

Lemma last_map_default {T U} (f : T -> U) (l : list T) (d : T) (e : U) :
  l <> [] -> last (map f l) e = f (last l d).
Proof.
  induction l as [|x l IH]; intros H; [congruence|].
  destruct l as [|y l]; [reflexivity|].
  change (last (map f (y :: l)) e = f (last (y :: l) d)).
  apply IH. discriminate.
Qed.

Lemma last_cons_default {T} (x d : T) (l : list T) :
  last (x :: l) d = last l x.
Proof.
  revert x d. induction l as [|y l IH]; intros x d; [reflexivity|].
  change (last (y :: l) d = last (y :: l) x).
  rewrite (IH y d), (IH y x). reflexivity.
Qed.

Lemma waypoints_first q q_next :
  length q = length q_next -> veq (hd [] (waypoints q q_next)) q.
Proof.
  intros H. unfold waypoints.
  destruct t_grid_split as (t0 & mid & -> & H0). simpl.
  apply interp_0; auto.
Qed.

Lemma waypoints_last q q_next :
  length q = length q_next -> veq (last (waypoints q q_next) []) q_next.
Proof.
  intros H. unfold waypoints.
  rewrite (last_map_default _ _ 0) by (vm_compute; discriminate).
  apply interp_1; auto. vm_compute. reflexivity.
Qed.

Lemma waypoints_in_region tol R q q_next :
  length q = length q_next ->
  in_region tol R q -> in_region tol R q_next ->
  Forall (in_region tol R) (waypoints q q_next).
Proof.
  intros Hlen Hq Hn. unfold waypoints.
  apply Forall_map.
  eapply Forall_impl; [|apply t_grid_unit].
  intros t [H0 H1]. apply ineqs_hold_interp; auto.
Qed.

(** ** The log *)

Lemma published_app l1 l2 : published (l1 ++ l2) = published l1 ++ published l2.
Proof.
  induction l1 as [|e l1 IH]; simpl; auto.
  destruct e; simpl; rewrite ?IH; auto.
Qed.

Lemma published_poses nb ws : published (flat_map (pose_events nb) ws) = ws.
Proof.
  induction ws as [|p ws IH]; simpl; auto.
  destruct nb; simpl; rewrite IH; auto.
Qed.

Lemma published_step_events nb q d prog r :
  published (step_events nb q d prog r) = waypoints q (GetSolution r).
Proof. unfold step_events. cbn [published]. apply published_poses. Qed.

Lemma count_app f l1 l2 : count f (l1 ++ l2) = (count f l1 + count f l2)%nat.
Proof. unfold count. rewrite filter_app, length_app. reflexivity. Qed.

Lemma count_poses f nb ws :
  f EvSleep = false -> (forall p, f (EvPublish p) = false) ->
  count f (flat_map (pose_events nb) ws) = 0%nat.
Proof.
  intros Hs Hp. unfold count.
  induction ws as [|p ws IH]; simpl; auto.
  rewrite Hp. destruct nb; simpl; rewrite ?Hs; auto.
Qed.

Lemma count_sleep_poses nb ws :
  count is_sleep (flat_map (pose_events nb) ws)
  = if nb then length ws else 0%nat.
Proof.
  unfold count.
  induction ws as [|p ws IH]; simpl; [destruct nb; auto|].
  destruct nb; simpl; rewrite IH; auto.
Qed.

(** ** One step and the loop *)

Section Steps.

Variable RngState : Type.
Variable standard_normal : nat -> RngState -> vec * RngState.
Variable Solve : MathematicalProgram -> MathematicalProgramResult.
Variable button_clicks : nat -> Z.
Variable running_as_notebook : bool.
Variable nq : nat.

Local Abbreviation step :=
  (AnimateIris_step RngState standard_normal Solve running_as_notebook nq).
Local Abbreviation loop :=
  (AnimateIris_loop RngState standard_normal Solve button_clicks
                    running_as_notebook nq).
Local Abbreviation drawn := (drawn RngState standard_normal nq).
Local Abbreviation posed := (posed RngState standard_normal nq).
Local Abbreviation solved := (solved RngState standard_normal Solve nq).
Local Abbreviation polled := (polled RngState button_clicks).

Lemma show_poses q q_next ts (w : World RngState) :
  for_each RngState ts (show_pose RngState running_as_notebook q q_next) w
  = (Ok tt,
     mkWorld (region w) (rng w)
             (last (map (interp q q_next) ts) (positions w)) (polls w)
             (log w ++ flat_map (pose_events running_as_notebook)
                                (map (interp q q_next) ts))).
Proof.
  revert w. induction ts as [|t ts IH]; intros w.
  - destruct w; simpl. unfold ret. rewrite app_nil_r. reflexivity.
  - cbn [for_each]. unfold bind at 1.
    assert (E : show_pose RngState running_as_notebook q q_next t w
                = (Ok tt,
                   mkWorld (region w) (rng w) (interp q q_next t) (polls w)
                           (log w ++ pose_events running_as_notebook
                                                 (interp q q_next t)))).
    { unfold show_pose, bind, SetPositions, ForcedPublish, emit, ret,
        pose_events.
      destruct running_as_notebook; cbn; rewrite <- ?app_assoc; reflexivity. }
    rewrite E, IH. cbn [region rng positions polls log].
    cbn [map flat_map]. rewrite last_cons_default, <- app_assoc.
    reflexivity.
Qed.

(** A step, spelled out. *)
Lemma step_eq q prog (w : World RngState) :
  step q prog w =
  let r := solved prog w in
  if is_success r then
    (Ok (GetSolution r, posed prog w),
     mkWorld (region w) (snd (standard_normal nq (rng w)))
             (last (waypoints q (GetSolution r)) (positions w)) (polls w)
             (log w ++ step_events running_as_notebook q (drawn w)
                                   (posed prog w) r))
  else
    (Raise AssertionError,
     mkWorld (region w) (snd (standard_normal nq (rng w)))
             (positions w) (polls w)
             (log w ++ failed_step_events (drawn w) (posed prog w) r)).
Proof.
  unfold AnimateIris_step, solved, posed,
    drawn.
  unfold bind at 1. unfold rng_standard_normal.
  destruct (standard_normal nq (rng w)) as [d s] eqn:Es.
  cbn [fst snd]. cbv zeta.
  unfold bind at 1. unfold call_Solve. cbn [region rng positions polls log].
  unfold bind at 1. unfold py_assert.
  destruct (is_success (Solve (UpdateCoefficients prog d))) eqn:Hok.
  - unfold bind at 1. rewrite show_poses.
    cbn [region rng positions polls log]. unfold ret.
    unfold step_events, waypoints. rewrite <- !app_assoc. reflexivity.
  - unfold failed_step_events.
    rewrite <- !app_assoc. reflexivity.
Qed.

(** A step fails exactly when the solver reports no success. *)
Lemma step_outcome q prog (w : World RngState) :
  fst (step q prog w) =
  if is_success (solved prog w)
  then Ok (GetSolution (solved prog w), posed prog w)
  else Raise AssertionError.
Proof.
  rewrite step_eq. cbv zeta. destruct (is_success _); reflexivity.
Qed.

(** One evaluation of the loop condition, spelled out. *)
Lemma loop_eq fuel q prog (w : World RngState) :
  loop (S fuel) q prog w =
  if (button_clicks (polls w) <? 1)%Z then
    match step q prog (polled w) with
    | (Ok st, w') =>
        if negb running_as_notebook then (Ok st, w')
        else loop fuel (fst st) (snd st) w'
    | (Raise e, w') => (Raise e, w')
    | (OutOfFuel, w') => (OutOfFuel, w')
    end
  else (Ok (q, prog), polled w).
Proof.
  cbn [AnimateIris_loop]. unfold bind at 1. unfold GetButtonClicks.
  fold (polled w).
  destruct (button_clicks (polls w) <? 1)%Z; [|reflexivity].
  unfold bind at 1.
  destruct (step q prog (polled w)) as [[st| |] w']; try reflexivity.
  destruct running_as_notebook; reflexivity.
Qed.

(** The rule of the loop.  [I] holds of the local variables and the world
    whenever the condition of the loop is about to be evaluated; [P]
    holds when the loop is left, [F] when a step raises, [E] when the
    bound on the iterations is hit. *)
Section Rule.
Variable I P : vec -> MathematicalProgram -> World RngState -> Prop.
Variable F E : World RngState -> Prop.
Hypothesis I_bound : forall q prog w, I q prog w -> E w.
Hypothesis I_stop : forall q prog w,
  I q prog w -> (1 <= button_clicks (polls w))%Z -> P q prog (polled w).
Hypothesis I_step : forall q prog w,
  I q prog w -> (button_clicks (polls w) < 1)%Z ->
  match step q prog (polled w) with
  | (Ok st, w') =>
      I (fst st) (snd st) w' /\
      (running_as_notebook = false -> P (fst st) (snd st) w')
  | (Raise _, w') => F w'
  | (OutOfFuel, _) => False
  end.

Lemma loop_rule fuel : forall q prog w,
  I q prog w ->
  match loop fuel q prog w with
  | (Ok st, w') => P (fst st) (snd st) w'
  | (Raise _, w') => F w'
  | (OutOfFuel, w') => E w'
  end.
Proof.
  induction fuel as [|fuel IH]; intros q prog w HI.
  - simpl. eauto.
  - rewrite loop_eq.
    destruct (Z.ltb_spec (button_clicks (polls w)) 1) as [Hc|Hc].
    + pose proof (I_step _ _ _ HI Hc) as Hs.
      destruct (step q prog (polled w)) as [[st| |] w']; auto; [|tauto].
      destruct Hs as [HI' HP].
      destruct running_as_notebook; cbn [negb]; auto.
      apply IH; auto.
    + cbn [fst snd]. auto.
Qed.
End Rule.

(** The function up to the loop, spelled out. *)
Lemma init_eq (w : World RngState) :
  AnimateIris_init RngState nq w =
  (Ok (ChebyshevCenter (region w), make_prog nq (region w)),
   mkWorld (region w) (rng w) (ChebyshevCenter (region w)) (polls w)
           (log w ++ [EvPublish (ChebyshevCenter (region w)); EvPrint;
                      EvAddButton])).
Proof.
  unfold AnimateIris_init, bind, region_ChebyshevCenter, SetPositions,
    ForcedPublish, emit, region_A, region_b, ret, make_prog.
  cbn [region rng positions polls log].
  rewrite <- !app_assoc. reflexivity.
Qed.

(** The world in which the loop starts. *)
Lemma run_eq fuel speed (w : World RngState) :
  AnimateIris RngState standard_normal Solve button_clicks
              running_as_notebook nq fuel speed w =
  match loop fuel (ChebyshevCenter (region w)) (make_prog nq (region w))
             (snd (AnimateIris_init RngState nq w)) with
  | (Ok _, w') =>
      (Ok tt, mkWorld (region w') (rng w') (positions w') (polls w')
                      (log w' ++ [EvDeleteButton]))
  | (Raise e, w') => (Raise e, w')
  | (OutOfFuel, w') => (OutOfFuel, w')
  end.
Proof.
  unfold AnimateIris. unfold bind at 1. rewrite init_eq.
  cbn [fst snd]. unfold bind at 1.
  destruct (loop fuel _ _ _) as [[st| |] w']; reflexivity.
Qed.

End Steps.

(** ** Programs and regions *)

Lemma rows_hold_region tol rows bs x :
  rows_hold tol rows (minus_inf_like bs) (map Fin bs) x
  <-> ineqs_hold tol rows bs x.
Proof.
  revert bs. induction rows as [|r rows IH]; intros [|u bs]; simpl;
    try tauto.
  rewrite IH. tauto.
Qed.

Lemma same_constraints_refl p : same_constraints p p.
Proof. repeat split. Qed.

(** A point satisfies the constraints of the program built from a region
    exactly when it has [nq] entries and lies in the region. *)
Lemma prog_feasible_region tol nq R prog x :
  same_constraints prog (make_prog nq R) ->
  prog_feasible tol prog x <-> length x = nq /\ in_region tol R x.
Proof.
  intros (Hn & HA & Hl & Hu). unfold prog_feasible, in_region.
  rewrite Hn, HA, Hl, Hu. simpl. rewrite rows_hold_region. tauto.
Qed.

Lemma in_regionb_spec tol R q : in_regionb tol R q = true <-> in_region tol R q.
Proof.
  unfold in_regionb, in_region. generalize (b R). generalize (A R).
  intros rows. induction rows as [|r rows IH]; intros [|u bs]; simpl;
    try tauto.
  rewrite andb_true_iff, Qle_bool_iff, IH. tauto.
Qed.

(** ** The solver for the unit box *)

Lemma box_corner_range c : -1 <= box_corner c /\ box_corner c <= 1.
Proof.
  unfold box_corner.
  destruct (Qlt_le_dec 0 c); [lra|destruct (Qlt_le_dec c 0); lra].
Qed.

Lemma box_corner_min c y : -1 <= y -> y <= 1 -> c * box_corner c <= c * y.
Proof.
  intros H1 H2. unfold box_corner.
  destruct (Qlt_le_dec 0 c); [nra|destruct (Qlt_le_dec c 0); nra].
Qed.

Lemma unit_box_Solve_optimal tol prog d :
  0 <= tol ->
  same_constraints prog (make_prog 2 unit_square) ->
  length d = 2%nat ->
  prog_optimal tol (UpdateCoefficients prog d)
               (GetSolution (unit_box_Solve (UpdateCoefficients prog d))).
Proof.
  intros Htol Hc Hd.
  destruct d as [|c1 [|c2 [|]]]; try discriminate.
  pose proof (box_corner_range c1) as [? ?].
  pose proof (box_corner_range c2) as [? ?].
  split.
  - apply (prog_feasible_region tol 2 unit_square); [exact Hc|].
    split; [reflexivity|].
    unfold in_region; simpl. repeat split; lra.
  - intros y Hy.
    apply (prog_feasible_region 0 2 unit_square) in Hy; [|exact Hc].
    destruct Hy as [Hlen Hy].
    destruct y as [|y1 [|y2 [|]]]; try discriminate.
    unfold in_region in Hy; simpl in Hy.
    destruct Hy as (Ha & Hb & Hc' & Hd' & _).
    assert (c1 * box_corner c1 <= c1 * y1) by (apply box_corner_min; lra).
    assert (c2 * box_corner c2 <= c2 * y2) by (apply box_corner_min; lra).
    simpl. lra.
Qed.

Lemma scripted_normal_length n s : length (fst (scripted_normal n s)) = n.
Proof.
  assert (H : forall d, length (resize n d) = n).
  { intros d. unfold resize. rewrite length_firstn, length_app, repeat_length.
    lia. }
  destruct s; simpl; apply H.
Qed.

(** ** The claims about one step *)

Section StepClaims.

Variable RngState : Type.
Variable standard_normal : nat -> RngState -> vec * RngState.
Variable Solve : MathematicalProgram -> MathematicalProgramResult.
Variable running_as_notebook : bool.
Variable nq : nat.

Local Abbreviation step :=
  (AnimateIris_step RngState standard_normal Solve running_as_notebook nq).
Local Abbreviation drawn := (drawn RngState standard_normal nq).
Local Abbreviation posed := (posed RngState standard_normal nq).
Local Abbreviation solved := (solved RngState standard_normal Solve nq).

(** What a completed step returned and did. *)
Lemma step_ok_inv q prog (w : World RngState) q' prog' w' :
  step q prog w = (Ok (q', prog'), w') ->
  is_success (solved prog w) = true /\
  q' = GetSolution (solved prog w) /\
  prog' = posed prog w /\
  log w' = log w ++ step_events running_as_notebook q (drawn w)
                                (posed prog w) (solved prog w) /\
  region w' = region w /\ polls w' = polls w.
Proof.
  rewrite step_eq. cbv zeta.
  destruct (is_success (solved prog w)); intros H; inversion H; subst.
  repeat split.
Qed.

(** C1 (as amended).  The direction drawn becomes the coefficients of the
    linear cost of the program, which the solver minimises.  So, when
    the solver's result is a solution of the program it was handed
    within [tol], the target of a completed step lies in the region
    within [tol] and no point of the region has a smaller inner product
    with the direction, up to [tol]: the target is a farthest point
    against the direction drawn.  On the unit square with the direction
    (1, 0) the first coordinate of the target is -1 within [tol]. *)
Theorem C1_target_minimises_direction
  tol R q prog (w : World RngState) q' prog' w' :
  same_constraints prog (make_prog nq R) ->
  prog_optimal tol (posed prog w) (GetSolution (solved prog w)) ->
  step q prog w = (Ok (q', prog'), w') ->
  cost_coeffs prog' = drawn w /\
  same_constraints prog' (make_prog nq R) /\
  in_region tol R q' /\
  (forall y, length y = nq -> in_region 0 R y ->
             dot (drawn w) q' <= dot (drawn w) y + tol) /\
  (R = unit_square -> nq = 2%nat -> drawn w = [1; 0] ->
   exists x1 x2, q' = [x1; x2] /\ -1 - tol <= x1 /\ x1 <= -1 + tol).
Proof.
  intros Hc [Hfeas Hopt] Hstep.
  apply step_ok_inv in Hstep.
  destruct Hstep as (_ & -> & -> & _).
  assert (Hc' : same_constraints (posed prog w) (make_prog nq R))
    by exact Hc.
  apply (prog_feasible_region tol nq R) in Hfeas; [|exact Hc'].
  destruct Hfeas as [Hlen Hin].
  assert (Hmin : forall y, length y = nq -> in_region 0 R y ->
                   dot (drawn w) (GetSolution (solved prog w))
                   <= dot (drawn w) y + tol).
  { intros y Hy Hiny. apply (Hopt y).
    apply (prog_feasible_region 0 nq R); auto. }
  split; [reflexivity|].
  split; [exact Hc'|].
  split; [exact Hin|].
  split; [exact Hmin|].
  intros HR Hnq Hd. subst R.
  assert (Hlen2 : length (GetSolution (solved prog w)) = 2%nat)
    by congruence.
  destruct (GetSolution (solved prog w)) as [|x1 [|x2 [|]]];
    try discriminate.
  exists x1, x2. split; [reflexivity|].
  unfold in_region in Hin; simpl in Hin.
  destruct Hin as (_ & Hlow & _).
  specialize (Hmin [-1; 0] (eq_sym Hnq)).
  rewrite Hd in Hmin. simpl in Hmin.
  split; [lra|].
  assert (in_region 0 unit_square [-1; 0])
    by (unfold in_region; simpl; repeat split; lra).
  specialize (Hmin H). lra.
Qed.

(** C2.  A completed step from [q] to the target [q'] publishes, after
    what was published before, exactly the 21 poses
    [t * q' + (1 - t) * q] for [t = 0, 1/20, 2/20, ..., 19/20, 1] in
    that order: [t] increases strictly, [t = 1] occurs once, the first
    pose is [q] and the last is [q']. *)
Theorem C2_step_waypoints q prog (w : World RngState) q' prog' w' :
  length q = length q' ->
  step q prog w = (Ok (q', prog'), w') ->
  published (log w') = published (log w) ++ waypoints q q' /\
  waypoints q q'
  = map (fun t => vadd (vscale t q') (vscale (1 - t) q)) t_grid /\
  length (waypoints q q') = 21%nat /\
  (forall i, (i <= 20)%nat ->
             nth i t_grid 0 == inject_Z (Z.of_nat i) * (1 # 20)) /\
  increasing t_grid /\
  occurrences 1 t_grid = 1%nat /\
  veq (hd [] (waypoints q q')) q /\
  veq (last (waypoints q q') []) q'.
Proof.
  intros Hlen Hstep.
  apply step_ok_inv in Hstep.
  destruct Hstep as (_ & Hq & _ & Hlog & _).
  split; [|split; [|split; [|split; [|split; [|split; [|split]]]]]].
  - rewrite Hlog, published_app, published_step_events, Hq. reflexivity.
  - reflexivity.
  - apply waypoints_length.
  - apply t_grid_nth.
  - apply t_grid_increasing.
  - reflexivity.
  - apply waypoints_first, Hlen.
  - apply waypoints_last, Hlen.
Qed.

End StepClaims.

(** ** The claims about the loop and the whole function *)

Lemma update_same p1 p2 d :
  same_constraints p1 p2 -> UpdateCoefficients p1 d = UpdateCoefficients p2 d.
Proof.
  intros (Hn & HA & Hl & Hu). unfold UpdateCoefficients.
  rewrite Hn, HA, Hl, Hu. reflexivity.
Qed.

Lemma whole_steps_counts nb q0 l q :
  whole_steps nb q0 l q ->
  length (published l) = (21 * count is_sample l)%nat /\
  count is_solve l = count is_sample l /\
  count is_poll l = count is_sample l.
Proof.
  induction 1 as [|l q c d prog r Hl (IH1 & IH2 & IH3) Hc Hr].
  - repeat split.
  - rewrite published_app, length_app, !count_app.
    cbn [published]. rewrite published_step_events, waypoints_length.
    unfold step_events, count in *. cbn [filter is_sample is_solve is_poll].
    cbn [length].
    fold (count is_sample (flat_map (pose_events nb)
                                     (waypoints q (GetSolution r)))).
    fold (count is_solve (flat_map (pose_events nb)
                                    (waypoints q (GetSolution r)))).
    fold (count is_poll (flat_map (pose_events nb)
                                   (waypoints q (GetSolution r)))).
    rewrite !count_poses by reflexivity.
    lia.
Qed.

(** Every call of the solver inside a whole step reported success. *)
Lemma whole_steps_succeeded nb q0 l q :
  whole_steps nb q0 l q -> Forall solve_succeeded l.
Proof.
  induction 1 as [|l q c d prog r Hl IH Hc Hr]; [constructor|].
  apply Forall_app. split; [exact IH|].
  unfold step_events.
  constructor; [exact I|]. constructor; [exact I|]. constructor; [exact Hr|].
  generalize (waypoints q (GetSolution r)).
  intros ws. induction ws as [|p ws IHws]; simpl; [constructor|].
  constructor; [exact I|].
  destruct nb; simpl; [constructor; [exact I|]|]; exact IHws.
Qed.

(** A run of whole steps is empty or begins with a poll. *)
Lemma whole_steps_head nb q0 l q :
  whole_steps nb q0 l q -> l = [] \/ exists c l', l = EvPoll c :: l'.
Proof.
  induction 1 as [|l q c d prog r Hl IH Hc Hr]; [left; reflexivity|].
  right. destruct IH as [->|(c' & l' & ->)]; simpl; eauto.
Qed.

Lemma loop_end_head tail :
  loop_end tail -> tail = [] \/ exists c l', tail = EvPoll c :: l'.
Proof. intros H. destruct H; eauto. Qed.

(** A failed call of the solver found in [l ++ rest], where the calls in
    [l] all succeeded, lies in [rest]. *)
Lemma split_at_failed l : forall rest pre p r post,
  Forall solve_succeeded l ->
  l ++ rest = pre ++ EvSolve p r :: post ->
  is_success r = false ->
  exists pre', pre = l ++ pre' /\ rest = pre' ++ EvSolve p r :: post.
Proof.
  induction l as [|e l IH]; intros rest pre p r post Hl Heq Hr.
  - exists pre. split; [reflexivity|exact Heq].
  - inversion Hl as [|? ? He Hl']; subst.
    destruct pre as [|e' pre]; simpl in Heq; inversion Heq; subst.
    + simpl in He. congruence.
    + destruct (IH _ _ _ _ _ Hl' H1 Hr) as (pre' & -> & Hrest).
      exists pre'. split; [reflexivity|exact Hrest].
Qed.

(** After whole steps and the end of a loop, a failed call of the solver
    can only be the last event, with its poll and its sample before it. *)
Lemma failed_solve_is_last l tail pre p r post :
  Forall solve_succeeded l -> loop_end tail ->
  l ++ tail = pre ++ EvSolve p r :: post ->
  is_success r = false ->
  post = [] /\ exists c d, tail = [EvPoll c; EvSample d; EvSolve p r].
Proof.
  intros Hl Ht Heq Hr.
  destruct (split_at_failed _ _ _ _ _ _ Hl Heq Hr) as (pre' & _ & Htail).
  destruct Ht as [|c Hc|c d p0 r0 Hc Hr0]; unfold failed_step_events in *.
  - destruct pre'; discriminate.
  - destruct pre' as [|? [|? ?]]; discriminate.
  - destruct pre' as [|e1 [|e2 [|e3 [|? ?]]]]; simpl in Htail;
      inversion Htail; subst.
    split; eauto.
Qed.

Section RunClaims.

Variable RngState : Type.
Variable standard_normal : nat -> RngState -> vec * RngState.
Variable Solve : MathematicalProgram -> MathematicalProgramResult.
Variable button_clicks : nat -> Z.
Variable running_as_notebook : bool.
Variable nq : nat.

Local Abbreviation step :=
  (AnimateIris_step RngState standard_normal Solve running_as_notebook nq).
Local Abbreviation loop :=
  (AnimateIris_loop RngState standard_normal Solve button_clicks
                    running_as_notebook nq).
Local Abbreviation init := (AnimateIris_init RngState nq).
Local Abbreviation run :=
  (AnimateIris RngState standard_normal Solve button_clicks
               running_as_notebook nq).
Local Abbreviation drawn := (drawn RngState standard_normal nq).
Local Abbreviation posed := (posed RngState standard_normal nq).
Local Abbreviation solved := (solved RngState standard_normal Solve nq).
Local Abbreviation polled := (polled RngState button_clicks).

(** The log of the loop: whole steps, then one of the three ends. *)
Lemma loop_shape fuel q0 prog0 (w0 : World RngState) :
  match loop fuel q0 prog0 w0 with
  | (Ok st, w') =>
      exists l tail,
        log w' = log w0 ++ l ++ tail /\
        whole_steps running_as_notebook q0 l (fst st) /\
        ((exists c, tail = [EvPoll c] /\ (1 <= c)%Z) \/
         (tail = [] /\ running_as_notebook = false /\ l <> []))
  | (Raise _, w') =>
      exists l qe c d p r,
        log w' = log w0 ++ l ++ EvPoll c :: failed_step_events d p r /\
        whole_steps running_as_notebook q0 l qe /\
        (c < 1)%Z /\ is_success r = false /\ r = Solve p
  | (OutOfFuel, w') =>
      exists l qe,
        log w' = log w0 ++ l /\ whole_steps running_as_notebook q0 l qe
  end.
Proof.
  apply (loop_rule RngState standard_normal Solve button_clicks
           running_as_notebook nq
           (fun q _ w => exists l, log w = log w0 ++ l /\
                                   whole_steps running_as_notebook q0 l q)
           (fun q _ w => exists l tail,
                log w = log w0 ++ l ++ tail /\
                whole_steps running_as_notebook q0 l q /\
                ((exists c, tail = [EvPoll c] /\ (1 <= c)%Z) \/
                 (tail = [] /\ running_as_notebook = false /\ l <> [])))).
  - intros q prog w (l & Hl & Hw). eauto.
  - intros q prog w (l & Hl & Hw) Hc.
    exists l, [EvPoll (button_clicks (polls w))].
    cbn [log polled]. rewrite Hl, <- app_assoc.
    split; [reflexivity|split; [exact Hw|left; eauto]].
  - intros q prog w (l & Hl & Hw) Hc.
    rewrite step_eq. cbv zeta.
    destruct (is_success (solved prog (polled w))) eqn:Hr;
      cbn [fst snd log]; cbn [log polled].
    + assert (Hws : whole_steps running_as_notebook q0
                      (l ++ EvPoll (button_clicks (polls w))
                         :: step_events running_as_notebook q
                              (drawn (polled w)) (posed prog (polled w))
                              (solved prog (polled w)))
                      (GetSolution (solved prog (polled w))))
        by (constructor; auto).
      split.
      * eexists. split; [|exact Hws].
        rewrite Hl, <- !app_assoc. reflexivity.
      * intros Hnb. eexists. exists []. split; [|split; [exact Hws|]].
        -- rewrite Hl, app_nil_r, <- !app_assoc. reflexivity.
        -- right. repeat split; auto.
           destruct l; discriminate.
    + exists l, q, (button_clicks (polls w)), (drawn (polled w)),
        (posed prog (polled w)), (solved prog (polled w)).
      rewrite Hl, <- !app_assoc. repeat split; auto.
  - exists []. rewrite app_nil_r. split; [reflexivity|constructor].
Qed.

(** The log of the whole function: the three events before the loop, the
    whole steps, the end of the loop and, on a normal return only, the
    deletion of the button. *)
Lemma run_shape fuel speed (w : World RngState) :
  exists l q_end tail fin,
    log (snd (run fuel speed w))
    = log w ++ [EvPublish (ChebyshevCenter (region w)); EvPrint; EvAddButton]
            ++ l ++ tail ++ fin /\
    whole_steps running_as_notebook (ChebyshevCenter (region w)) l q_end /\
    loop_end tail /\
    match fst (run fuel speed w) with
    | Ok _ => fin = [EvDeleteButton]
    | _ => fin = []
    end /\
    match fst (run fuel speed w) with
    | Ok _ => tail = [] \/ exists c, tail = [EvPoll c]
    | Raise _ =>
        exists c d p r, tail = EvPoll c :: failed_step_events d p r /\
                        is_success r = false
    | OutOfFuel => tail = []
    end.
Proof.
  rewrite run_eq, init_eq. cbn [snd].
  set (w1 := mkWorld (region w) (rng w) (ChebyshevCenter (region w))
                     (polls w)
                     (log w ++ [EvPublish (ChebyshevCenter (region w));
                                EvPrint; EvAddButton])).
  pose proof (loop_shape fuel (ChebyshevCenter (region w))
                (make_prog nq (region w)) w1) as H.
  destruct (AnimateIris_loop _ _ _ _ _ _ fuel _ _ w1) as [[st| |] w'];
    cbn [fst snd log].
  - destruct H as (l & tail & Hlog & Hw & Ht).
    exists l, (fst st), tail, [EvDeleteButton].
    split; [rewrite Hlog; unfold w1; cbn [log];
            rewrite <- !app_assoc; reflexivity|].
    split; [exact Hw|].
    destruct Ht as [(c & -> & Hc)|(-> & _)].
    + split; [constructor; auto|]. split; [reflexivity|]. right. eauto.
    + split; [constructor|]. split; [reflexivity|]. left. reflexivity.
  - destruct H as (l & qe & c & d & p & r & Hlog & Hw & Hc & Hr & _).
    exists l, qe, (EvPoll c :: failed_step_events d p r), [].
    split; [rewrite Hlog; unfold w1; cbn [log];
            rewrite <- !app_assoc, app_nil_r; reflexivity|].
    split; [exact Hw|]. split; [constructor; auto|].
    split; [reflexivity|]. exists c, d, p, r. auto.
  - destruct H as (l & qe & Hlog & Hw).
    exists l, qe, [], [].
    split; [rewrite Hlog; unfold w1; cbn [log];
            rewrite <- !app_assoc, !app_nil_r; reflexivity|].
    split; [exact Hw|]. split; [constructor|]. split; reflexivity.
Qed.

(** A poll that finds the button clicked ends the loop at once. *)
Lemma loop_stop fuel q prog (w : World RngState) :
  (1 <= button_clicks (polls w))%Z ->
  loop (S fuel) q prog w = (Ok (q, prog), polled w).
Proof.
  intros Hc. rewrite loop_eq.
  destruct (Z.ltb_spec (button_clicks (polls w)) 1); [lia|reflexivity].
Qed.

(** The loop neither reads nor writes the region. *)
Lemma loop_region fuel : forall q prog (w : World RngState),
  region (snd (loop fuel q prog w)) = region w.
Proof.
  induction fuel as [|fuel IH]; intros q prog w; [reflexivity|].
  rewrite loop_eq.
  destruct (button_clicks (polls w) <? 1)%Z; [|reflexivity].
  rewrite step_eq. cbv zeta.
  destruct (is_success (solved prog (polled w))); [|reflexivity].
  destruct running_as_notebook; cbn [negb]; [|reflexivity].
  rewrite IH. reflexivity.
Qed.

(** What a step does to the generator, to the number of directions drawn
    and to the poses published. *)
Lemma step_facts q prog (w : World RngState) :
  let r := solved prog w in
  let w' := snd (step q prog w) in
  rng w' = snd (standard_normal nq (rng w)) /\
  count is_sample (log w') = S (count is_sample (log w)) /\
  published (log w')
  = published (log w)
    ++ (if is_success r then waypoints q (GetSolution r) else []) /\
  fst (step q prog w)
  = if is_success r then Ok (GetSolution r, posed prog w)
    else Raise AssertionError.
Proof.
  cbv zeta. rewrite step_eq. cbv zeta.
  destruct (is_success (solved prog w)); cbn [fst snd rng log];
    rewrite count_app, published_app.
  - rewrite published_step_events. unfold step_events, count.
    cbn [filter is_sample length].
    fold (count is_sample
            (flat_map (pose_events running_as_notebook)
               (waypoints q (GetSolution (solved prog w))))).
    rewrite count_poses by reflexivity.
    repeat split. fold (count is_sample (log w)). lia.
  - unfold failed_step_events, count. cbn.
    repeat split. lia.
Qed.



(** C3.  When the generator returns as many samples as asked for and the
    solver's successful results satisfy the constraints of the program
    within [tol]: the target of every completed step lies in the region
    within [tol], and so do the 21 poses of the step, convex combinations
    of the pose it left and its target; if all poses published before
    the step lie in the region, so do all poses published after it.
    Hence every pose the function publishes, starting from a Chebyshev
    center in the region, lies in the region within [tol]. *)
Theorem C3_waypoints_stay_in_region tol R :
  (forall n s, length (fst (standard_normal n s)) = n) ->
  (forall d, length d = nq ->
     let p := UpdateCoefficients (make_prog nq R) d in
     is_success (Solve p) = true ->
     prog_feasible tol p (GetSolution (Solve p))) ->
  (forall q prog (w : World RngState) q' prog' w',
     same_constraints prog (make_prog nq R) ->
     length q = nq -> in_region tol R q ->
     Forall (in_region tol R) (published (log w)) ->
     step q prog w = (Ok (q', prog'), w') ->
     in_region tol R q' /\ length q' = nq /\
     same_constraints prog' (make_prog nq R) /\
     Forall (in_region tol R) (waypoints q q') /\
     Forall (in_region tol R) (published (log w'))) /\
  (forall fuel speed (w : World RngState),
     region w = R ->
     length (ChebyshevCenter R) = nq ->
     in_region tol R (ChebyshevCenter R) ->
     Forall (in_region tol R) (published (log w)) ->
     Forall (in_region tol R) (published (log (snd (run fuel speed w))))).
Proof.
  intros Hrng Hsolver.
  assert (Hstep : forall q prog (w : World RngState) q' prog' w',
     same_constraints prog (make_prog nq R) ->
     length q = nq -> in_region tol R q ->
     Forall (in_region tol R) (published (log w)) ->
     step q prog w = (Ok (q', prog'), w') ->
     in_region tol R q' /\ length q' = nq /\
     same_constraints prog' (make_prog nq R) /\
     Forall (in_region tol R) (waypoints q q') /\
     Forall (in_region tol R) (published (log w'))).
  { intros q prog w q' prog' w' Hc Hlen Hq Hpub Hs.
    apply step_ok_inv in Hs.
    destruct Hs as (Hok & Hq' & Hp' & Hlog & _).
    assert (Hfeas : prog_feasible tol (posed prog w) q').
    { rewrite Hq'. unfold solved, posed in *.
      rewrite (update_same prog (make_prog nq R)) in * by exact Hc.
      apply Hsolver; [apply Hrng|exact Hok]. }
    apply (prog_feasible_region tol nq R) in Hfeas; [|exact Hc].
    destruct Hfeas as [Hlen' Hin'].
    assert (Hw : Forall (in_region tol R) (waypoints q q'))
      by (apply waypoints_in_region; congruence).
    split; [exact Hin'|]. split; [exact Hlen'|].
    split; [rewrite Hp'; exact Hc|]. split; [exact Hw|].
    rewrite Hlog, published_app, published_step_events, <- Hq'.
    apply Forall_app; auto. }
  split; [exact Hstep|].
  intros fuel speed w HR Hlen Hin Hpub.
  rewrite run_eq, init_eq. cbn [snd]. rewrite HR.
  match goal with
  | |- context [AnimateIris_loop _ _ _ _ _ _ fuel ?q0 ?p0 ?w0] =>
      pose proof (loop_rule RngState standard_normal Solve button_clicks
                    running_as_notebook nq
        (fun q prog w => same_constraints prog (make_prog nq R) /\
                         length q = nq /\ in_region tol R q /\
                         Forall (in_region tol R) (published (log w)))
        (fun _ _ w => Forall (in_region tol R) (published (log w)))
        (fun w => Forall (in_region tol R) (published (log w)))
        (fun w => Forall (in_region tol R) (published (log w)))) as Rule;
      specialize (fun a b c => Rule a b c fuel q0 p0 w0)
  end.
  match type of Rule with
  | _ -> _ -> _ -> _ -> ?G =>
      assert (HG : G); [apply Rule; clear Rule|clear Rule]
  end.
  - tauto.
  - intros q prog w1 (_ & _ & _ & H) _.
    cbn [log polled]. rewrite published_app. cbn.
    rewrite app_nil_r. exact H.
  - intros q prog w1 (Hc & Hl & Hq & H) _.
    assert (Hp : Forall (in_region tol R) (published (log (polled w1)))).
    { cbn [log polled]. rewrite published_app. cbn.
      rewrite app_nil_r. exact H. }
    destruct (step_facts q prog (polled w1)) as (_ & _ & Hpub' & Hout).
    destruct (step q prog (polled w1)) as [[[q' prog']| |] w2] eqn:Hs;
      cbn [fst snd] in *.
    + destruct (Hstep _ _ _ _ _ _ Hc Hl Hq Hp Hs) as (? & ? & ? & ? & ?).
      tauto.
    + destruct (is_success _); [discriminate|].
      rewrite Hpub', app_nil_r. exact Hp.
    + destruct (is_success _); discriminate.
  - split; [apply same_constraints_refl|].
    split; [exact Hlen|]. split; [exact Hin|].
    cbn [log]. rewrite published_app. apply Forall_app. split; auto.
    cbn. repeat constructor. exact Hin.
  - destruct (AnimateIris_loop _ _ _ _ _ _ fuel _ _ _) as [[st| |] w2];
      cbn [snd log]; auto.
    rewrite published_app. cbn. rewrite app_nil_r. exact HG.
Qed.


(** C5.  A step raises exactly when the solver's result reports no
    success, and then it raises the assertion's error at once: the world
    it leaves has the direction drawn and the one call of the solver in
    its log and nothing after them.  The error is surfaced: a step whose
    solver reports no success makes the loop, and the whole function,
    raise right there, after the poll, the drawing and the one call of the
    solver, without deleting the button.  There is no retry: in the log of
    any run of the loop or of the function, a call of the solver that
    reported no success is the last event, and the run raised.  No step
    runs out of the bound, and no other error is raised. *)
Theorem C5_solver_failure_surfaces :
  (forall q prog (w : World RngState),
      is_success (solved prog w) = false
      <-> exists e, fst (step q prog w) = Raise e) /\
  (forall q prog (w : World RngState),
      is_success (solved prog w) = false ->
      step q prog w
      = (Raise AssertionError,
         mkWorld (region w) (snd (standard_normal nq (rng w)))
                 (positions w) (polls w)
                 (log w ++ [EvSample (drawn w);
                            EvSolve (posed prog w) (solved prog w)]))) /\
  (forall q prog (w : World RngState), fst (step q prog w) <> OutOfFuel) /\
  (forall fuel q prog (w : World RngState),
      (button_clicks (polls w) < 1)%Z ->
      is_success (solved prog (polled w)) = false ->
      loop (S fuel) q prog w
      = (Raise AssertionError,
         mkWorld (region w) (snd (standard_normal nq (rng w)))
                 (positions w) (S (polls w))
                 (log w ++ [EvPoll (button_clicks (polls w));
                            EvSample (drawn (polled w));
                            EvSolve (posed prog (polled w))
                                    (solved prog (polled w))]))) /\
  (forall fuel speed (w : World RngState),
      (button_clicks (polls w) < 1)%Z ->
      is_success
        (Solve (UpdateCoefficients (make_prog nq (region w))
                                   (fst (standard_normal nq (rng w)))))
      = false ->
      fst (run (S fuel) speed w) = Raise AssertionError /\
      log (snd (run (S fuel) speed w))
      = log w ++ [EvPublish (ChebyshevCenter (region w)); EvPrint;
                  EvAddButton; EvPoll (button_clicks (polls w));
                  EvSample (fst (standard_normal nq (rng w)));
                  EvSolve
                    (UpdateCoefficients (make_prog nq (region w))
                                        (fst (standard_normal nq (rng w))))
                    (Solve
                       (UpdateCoefficients
                          (make_prog nq (region w))
                          (fst (standard_normal nq (rng w)))))]) /\
  (forall fuel q prog (w : World RngState) pre p r post,
      log (snd (loop fuel q prog w)) = log w ++ pre ++ EvSolve p r :: post ->
      is_success r = false ->
      post = [] /\ fst (loop fuel q prog w) = Raise AssertionError) /\
  (forall fuel speed (w : World RngState) pre p r post,
      log (snd (run fuel speed w)) = log w ++ pre ++ EvSolve p r :: post ->
      is_success r = false ->
      post = [] /\ fst (run fuel speed w) = Raise AssertionError) /\
  (forall fuel q prog (w : World RngState) e w',
      loop fuel q prog w = (Raise e, w') ->
      e = AssertionError /\
      exists l c d p,
        log w' = log w ++ l ++ [EvPoll c; EvSample d; EvSolve p (Solve p)]
        /\ is_success (Solve p) = false) /\
  (forall fuel speed (w : World RngState) e w',
      run fuel speed w = (Raise e, w') ->
      e = AssertionError /\
      exists l c d p,
        log w' = log w ++ l ++ [EvPoll c; EvSample d; EvSolve p (Solve p)]
        /\ is_success (Solve p) = false).
Proof.
  assert (Hloop : forall fuel q prog (w : World RngState) e w',
      loop fuel q prog w = (Raise e, w') ->
      e = AssertionError /\
      exists l c d p,
        log w' = log w ++ l ++ [EvPoll c; EvSample d; EvSolve p (Solve p)]
        /\ is_success (Solve p) = false).
  { intros fuel q prog w e w' H.
    pose proof (loop_shape fuel q prog w) as Hs. rewrite H in Hs.
    destruct Hs as (l & qe & c & d & p & r & Hlog & _ & _ & Hr & ->).
    split; [destruct e; reflexivity|].
    exists l, c, d, p. split; assumption. }
  assert (Hfwd : forall fuel q prog (w : World RngState),
      (button_clicks (polls w) < 1)%Z ->
      is_success (solved prog (polled w)) = false ->
      loop (S fuel) q prog w
      = (Raise AssertionError,
         mkWorld (region w) (snd (standard_normal nq (rng w)))
                 (positions w) (S (polls w))
                 (log w ++ [EvPoll (button_clicks (polls w));
                            EvSample (drawn (polled w));
                            EvSolve (posed prog (polled w))
                                    (solved prog (polled w))]))).
  { intros fuel q prog w Hc Hr. rewrite loop_eq.
    destruct (Z.ltb_spec (button_clicks (polls w)) 1); [|lia].
    rewrite step_eq. cbv zeta. rewrite Hr.
    unfold failed_step_events. cbn [region rng positions polls log polled].
    rewrite <- app_assoc. reflexivity. }
  split; [|split; [|split; [|split; [|split; [|split; [|split; [|split]]]]]]].
  - intros q prog w. rewrite step_outcome.
    destruct (is_success (solved prog w)); split; intros H;
      try discriminate; eauto.
    destruct H; discriminate.
  - intros q prog w H. rewrite step_eq. cbv zeta. rewrite H. reflexivity.
  - intros q prog w. rewrite step_outcome.
    destruct (is_success (solved prog w)); discriminate.
  - exact Hfwd.
  - intros fuel speed w Hc Hr. rewrite run_eq, init_eq. cbn [snd].
    rewrite Hfwd by assumption. cbn [fst snd log polls rng region].
    split; [reflexivity|]. rewrite <- app_assoc. reflexivity.
  - intros fuel q prog w pre p r post Heq Hr.
    pose proof (loop_shape fuel q prog w) as Hs.
    destruct (loop fuel q prog w) as [[st| |] w']; cbn [fst snd] in *.
    + destruct Hs as (l & tail & Hlog & Hw & Ht).
      rewrite Hlog in Heq. apply app_inv_head in Heq.
      assert (Hend : loop_end tail)
        by (destruct Ht as [(c & -> & Hc)|(-> & _)]; constructor; auto).
      destruct (failed_solve_is_last _ _ _ _ _ _
                  (whole_steps_succeeded _ _ _ _ Hw) Hend Heq Hr)
        as (_ & c & d & ->).
      destruct Ht as [(c' & Ht & _)|(Ht & _)]; discriminate.
    + destruct Hs as (l & qe & c & d & p0 & r0 & Hlog & Hw & Hc & Hr0 & _).
      rewrite Hlog in Heq. apply app_inv_head in Heq.
      destruct (failed_solve_is_last _ _ _ _ _ _
                  (whole_steps_succeeded _ _ _ _ Hw)
                  (end_raise c d p0 r0 Hc Hr0) Heq Hr) as (Hpost & _).
      split; [exact Hpost|]. destruct e; reflexivity.
    + destruct Hs as (l & qe & Hlog & Hw).
      rewrite Hlog in Heq. apply app_inv_head in Heq.
      rewrite <- (app_nil_r l) in Heq.
      destruct (failed_solve_is_last _ _ _ _ _ _
                  (whole_steps_succeeded _ _ _ _ Hw) end_here Heq Hr)
        as (_ & c & d & Ht).
      discriminate.
  - intros fuel speed w pre p r post Heq Hr.
    destruct (run_shape fuel speed w)
      as (l & qe & tail & fin & Hlog & Hw & Ht & Hf & Hcase).
    rewrite Hlog in Heq. apply app_inv_head in Heq.
    rewrite app_assoc in Heq.
    assert (Hl : Forall solve_succeeded
                   ([EvPublish (ChebyshevCenter (region w)); EvPrint;
                     EvAddButton] ++ l)).
    { apply Forall_app. split; [repeat constructor|].
      exact (whole_steps_succeeded _ _ _ _ Hw). }
    destruct (split_at_failed _ _ _ _ _ _ Hl Heq Hr) as (pre' & _ & Hrest).
    destruct (fst (run fuel speed w)) as [u|e|].
    + subst fin. destruct Hcase as [->|(c & ->)]; simpl in Hrest.
      * destruct pre' as [|? [|? ?]]; discriminate.
      * destruct pre' as [|? [|? [|? ?]]]; discriminate.
    + subst fin. destruct Hcase as (c & d & p0 & r0 & -> & Hr0).
      unfold failed_step_events in Hrest. simpl in Hrest.
      destruct pre' as [|e1 [|e2 [|e3 [|? ?]]]]; simpl in Hrest;
        inversion Hrest; subst.
      split; [reflexivity|]. destruct e; reflexivity.
    + subst fin tail. destruct pre'; discriminate.
  - exact Hloop.
  - intros fuel speed w e w' H. rewrite run_eq, init_eq in H.
    cbn [snd] in H.
    destruct (AnimateIris_loop _ _ _ _ _ _ fuel _ _ _)
      as [[st| |] w2] eqn:Hl; inversion H; subst.
    apply Hloop in Hl. destruct Hl as (He & l & c & d & p & Hlog & Hr).
    split; [destruct e; reflexivity|].
    cbn [log] in Hlog.
    exists ([EvPublish (ChebyshevCenter (region w)); EvPrint; EvAddButton]
            ++ l), c, d, p.
    split; [|exact Hr]. rewrite Hlog, <- !app_assoc. reflexivity.
Qed.

(** C6.  When the first poll of the loop finds the button clicked, the
    loop returns at once with its local variables as they were: the
    world is the one it was entered in but for the poll; no pose is
    published, no direction is drawn, no program is solved, and the
    generator and the plant are as before.  Entering the loop again in
    that world does the same.  The whole function then has shown the
    pose of the Chebyshev center, added the button, polled it once and
    deleted it. *)
Theorem C6_stop_at_entry fuel q prog (w : World RngState) :
  (1 <= button_clicks (polls w))%Z ->
  loop (S fuel) q prog w = (Ok (q, prog), polled w) /\
  log (polled w) = log w ++ [EvPoll (button_clicks (polls w))] /\
  published (log (polled w)) = published (log w) /\
  count is_sample (log (polled w)) = count is_sample (log w) /\
  count is_solve (log (polled w)) = count is_solve (log w) /\
  rng (polled w) = rng w /\
  positions (polled w) = positions w /\
  ((1 <= button_clicks (polls (polled w)))%Z ->
   loop (S fuel) q prog (polled w) = (Ok (q, prog), polled (polled w))) /\
  (forall speed,
      q = ChebyshevCenter (region w) -> prog = make_prog nq (region w) ->
      log (snd (run (S fuel) speed w))
      = log w ++ [EvPublish (ChebyshevCenter (region w)); EvPrint;
                  EvAddButton; EvPoll (button_clicks (polls w));
                  EvDeleteButton]).
Proof.
  intros Hc.
  assert (Hlog : log (polled w)
                 = log w ++ [EvPoll (button_clicks (polls w))])
    by reflexivity.
  split; [apply loop_stop, Hc|].
  split; [exact Hlog|].
  split; [rewrite Hlog, published_app; cbn; apply app_nil_r|].
  split; [rewrite Hlog, count_app; cbn; lia|].
  split; [rewrite Hlog, count_app; cbn; lia|].
  split; [reflexivity|].
  split; [reflexivity|].
  split; [apply loop_stop|].
  intros speed -> ->. rewrite run_eq, init_eq. cbn [snd].
  rewrite loop_stop by exact Hc.
  cbn [snd log polls polled]. rewrite <- !app_assoc. reflexivity.
Qed.

(** What a run of the loop adds to the log is nothing or begins with a
    poll. *)
Lemma loop_log_head fuel q prog (w : World RngState) :
  exists rest,
    log (snd (loop fuel q prog w)) = log w ++ rest /\
    (rest = [] \/ exists c rest', rest = EvPoll c :: rest').
Proof.
  pose proof (loop_shape fuel q prog w) as H.
  assert (Hcat : forall l tail qe,
             whole_steps running_as_notebook q l qe -> loop_end tail ->
             l ++ tail = [] \/ exists c rest', l ++ tail = EvPoll c :: rest').
  { intros l tail qe Hw Ht.
    destruct (whole_steps_head _ _ _ _ Hw) as [->|(c & l' & ->)];
      [apply loop_end_head, Ht|right; simpl; eauto]. }
  destruct (loop fuel q prog w) as [[st| |] w']; cbn [snd].
  - destruct H as (l & tail & Hlog & Hw & Ht).
    exists (l ++ tail). split; [exact Hlog|].
    apply (Hcat _ _ _ Hw).
    destruct Ht as [(c & -> & Hc)|(-> & _)]; constructor; auto.
  - destruct H as (l & qe & c & d & p & r & Hlog & Hw & Hc & Hr & _).
    exists (l ++ EvPoll c :: failed_step_events d p r).
    split; [exact Hlog|]. apply (Hcat _ _ _ Hw). constructor; auto.
  - destruct H as (l & qe & Hlog & Hw).
    exists l. split; [exact Hlog|].
    rewrite <- (app_nil_r l). apply (Hcat _ _ _ Hw). constructor.
Qed.

(** C7 (as amended).  The log of the loop, for every bound on its
    iterations and every behaviour of the button, is a run of whole steps,
    each after the one poll that let it start and each made of the drawing
    of a direction, one call of the solver and the 21 poses from the pose
    the step before arrived at to its own target, followed by at most a
    last poll, or a last poll and a step stopped by its assertion before
    any pose.  A step that is started and whose solver reports success
    runs to completion whatever the button does: its 21 poses are
    published, no poll is made during it, and what the loop does next, a
    poll if anything, it does with the target as the new [q].  A step that
    is started and whose solver reports no success raises: it publishes no
    pose and no poll follows it. *)
Theorem C7_polls_between_whole_steps fuel q prog (w : World RngState) :
  (exists l q_end tail,
      log (snd (loop fuel q prog w)) = log w ++ l ++ tail /\
      whole_steps running_as_notebook q l q_end /\
      loop_end tail /\
      length (published l) = (21 * count is_sample l)%nat /\
      count is_poll l = count is_sample l /\
      published (log (snd (loop fuel q prog w)))
      = published (log w) ++ published l /\
      (forall st, fst (loop fuel q prog w) = Ok st -> fst st = q_end)) /\
  ((button_clicks (polls w) < 1)%Z ->
   is_success (solved prog (polled w)) = true ->
   exists w2 rest,
     step q prog (polled w)
     = (Ok (GetSolution (solved prog (polled w)), posed prog (polled w)), w2)
     /\ log w2
        = log w ++ EvPoll (button_clicks (polls w))
                :: step_events running_as_notebook q (drawn (polled w))
                     (posed prog (polled w)) (solved prog (polled w))
     /\ published (log w2)
        = published (log w)
          ++ waypoints q (GetSolution (solved prog (polled w)))
     /\ polls w2 = S (polls w)
     /\ loop (S fuel) q prog w
        = (if running_as_notebook
           then loop fuel (GetSolution (solved prog (polled w)))
                     (posed prog (polled w)) w2
           else (Ok (GetSolution (solved prog (polled w)),
                     posed prog (polled w)), w2))
     /\ log (snd (loop (S fuel) q prog w)) = log w2 ++ rest
     /\ (rest = [] \/ exists c rest', rest = EvPoll c :: rest')) /\
  ((button_clicks (polls w) < 1)%Z ->
   is_success (solved prog (polled w)) = false ->
   fst (loop (S fuel) q prog w) = Raise AssertionError /\
   log (snd (loop (S fuel) q prog w))
   = log w ++ [EvPoll (button_clicks (polls w));
               EvSample (drawn (polled w));
               EvSolve (posed prog (polled w)) (solved prog (polled w))] /\
   published (log (snd (loop (S fuel) q prog w))) = published (log w) /\
   polls (snd (loop (S fuel) q prog w)) = S (polls w)).
Proof.
  split; [|split].
  {
      pose proof (loop_shape fuel q prog w) as H.
      destruct (loop fuel q prog w) as [[st| |] w'] eqn:Hl; cbn [fst snd].
      - destruct H as (l & tail & Hlog & Hw & Ht).
        destruct (whole_steps_counts _ _ _ _ Hw) as (H1 & _ & H3).
        exists l, (fst st), tail.
        split; [exact Hlog|]. split; [exact Hw|].
        assert (loop_end tail /\ published tail = []) as [He Hp].
        { destruct Ht as [(c & -> & Hc)|(-> & _)]; split;
            try reflexivity; constructor; auto. }
        split; [exact He|]. split; [exact H1|]. split; [exact H3|].
        split; [|intros st' Hst; inversion Hst; reflexivity].
        rewrite Hlog, !published_app, Hp, app_nil_r. reflexivity.
      - destruct H as (l & qe & c & d & p & r & Hlog & Hw & Hc & Hr & _).
        destruct (whole_steps_counts _ _ _ _ Hw) as (H1 & _ & H3).
        exists l, qe, (EvPoll c :: failed_step_events d p r).
        split; [exact Hlog|]. split; [exact Hw|].
        split; [constructor; auto|]. split; [exact H1|]. split; [exact H3|].
        split; [|discriminate].
        rewrite Hlog, !published_app. cbn. rewrite app_nil_r. reflexivity.
      - destruct H as (l & qe & Hlog & Hw).
        destruct (whole_steps_counts _ _ _ _ Hw) as (H1 & _ & H3).
        exists l, qe, [].
        split; [rewrite app_nil_r; exact Hlog|]. split; [exact Hw|].
        split; [constructor|]. split; [exact H1|]. split; [exact H3|].
        split; [|discriminate].
        rewrite Hlog, !published_app. reflexivity.
  }
  - intros Hc Hr. rewrite loop_eq.
    destruct (Z.ltb_spec (button_clicks (polls w)) 1); [|lia].
    rewrite step_eq. cbv zeta. rewrite Hr.
    eexists.
    assert (Hrest : exists rest,
      log (snd (if running_as_notebook
                then loop fuel (GetSolution (solved prog (polled w)))
                          (posed prog (polled w))
                          (mkWorld (region (polled w))
                             (snd (standard_normal nq (rng (polled w))))
                             (last (waypoints q
                                      (GetSolution (solved prog (polled w))))
                                   (positions (polled w)))
                             (polls (polled w))
                             (log (polled w)
                              ++ step_events running_as_notebook q
                                   (drawn (polled w)) (posed prog (polled w))
                                   (solved prog (polled w))))
                else (Ok (GetSolution (solved prog (polled w)),
                          posed prog (polled w)),
                      mkWorld (region (polled w))
                        (snd (standard_normal nq (rng (polled w))))
                        (last (waypoints q
                                 (GetSolution (solved prog (polled w))))
                              (positions (polled w)))
                        (polls (polled w))
                        (log (polled w)
                         ++ step_events running_as_notebook q
                              (drawn (polled w)) (posed prog (polled w))
                              (solved prog (polled w))))))
      = (log (polled w)
         ++ step_events running_as_notebook q (drawn (polled w))
              (posed prog (polled w)) (solved prog (polled w))) ++ rest /\
      (rest = [] \/ exists c rest', rest = EvPoll c :: rest')).
    { destruct (loop_log_head fuel (GetSolution (solved prog (polled w)))
                  (posed prog (polled w))
                  (mkWorld (region (polled w))
                     (snd (standard_normal nq (rng (polled w))))
                     (last (waypoints q
                              (GetSolution (solved prog (polled w))))
                           (positions (polled w)))
                     (polls (polled w))
                     (log (polled w)
                      ++ step_events running_as_notebook q
                           (drawn (polled w)) (posed prog (polled w))
                           (solved prog (polled w)))))
        as (rest & Hlog & Hhead).
      destruct running_as_notebook.
      - exists rest. split; [exact Hlog|exact Hhead].
      - exists []. cbn [snd log]. rewrite app_nil_r. auto. }
    destruct Hrest as (rest & Hlog & Hhead).
    exists rest.
    split; [reflexivity|].
    cbn [log polls polled]. cbn [log polls polled] in Hlog.
    split; [rewrite <- app_assoc; reflexivity|].
    split; [rewrite !published_app, published_step_events; cbn;
            rewrite app_nil_r; reflexivity|].
    split; [reflexivity|].
    split; [destruct running_as_notebook; reflexivity|].
    split; [destruct running_as_notebook; cbn [negb]; exact Hlog|exact Hhead].
  - intros Hc Hr. rewrite loop_eq.
    destruct (Z.ltb_spec (button_clicks (polls w)) 1); [|lia].
    rewrite step_eq. cbv zeta. rewrite Hr.
    unfold failed_step_events. cbn [fst snd log polls polled].
    rewrite <- app_assoc, !published_app. cbn. rewrite !app_nil_r.
    repeat split.
Qed.

(** C9.  The region is the same object with the same value after the
    part of the function before the loop, after a step, after the loop
    and after the whole function.  A completed step returns the solver's
    solution as the new [q] and the program it was given with the cost
    coefficients replaced by the direction drawn, its constraints being
    the same; a step that does not complete raises. *)
Theorem C9_region_untouched fuel speed q prog (w : World RngState) :
  region (snd (init w)) = region w /\
  region (snd (step q prog w)) = region w /\
  region (snd (loop fuel q prog w)) = region w /\
  region (snd (run fuel speed w)) = region w /\
  fst (step q prog w)
  = (if is_success (solved prog w)
     then Ok (GetSolution (solved prog w), posed prog w)
     else Raise AssertionError) /\
  same_constraints (posed prog w) prog /\
  cost_coeffs (posed prog w) = drawn w.
Proof.
  split; [rewrite init_eq; reflexivity|].
  split; [rewrite step_eq; cbv zeta;
          destruct (is_success (solved prog w)); reflexivity|].
  split; [apply loop_region|].
  split.
  - rewrite run_eq.
    pose proof (loop_region fuel (ChebyshevCenter (region w))
                  (make_prog nq (region w)) (snd (init w))) as H.
    rewrite init_eq in H at 2. cbn [snd region] in H.
    destruct (loop fuel _ _ _) as [[st| |] w'];
      cbn [snd region] in *; exact H.
  - split; [apply step_outcome|].
    split; [exact (same_constraints_refl prog)|reflexivity].
Qed.

End RunClaims.

(** ** Two runs, and the run outside a notebook *)



(** C10 (as amended).  With [running_as_notebook] false, a loop whose
    first poll finds the button not clicked performs exactly one step when
    the solver reports success: one poll, one direction, one program
    solved, the 21 poses, no sleep; it then returns without polling again,
    whatever the button would have answered.  When the first poll finds
    the button clicked the loop performs no step, and when the solver
    reports no success the one step raises after drawing its direction and
    calling the solver once, before any pose.  In every case the loop
    polls once and starts at most one step. *)
Theorem C10_one_step_outside_notebook
  RngState standard_normal Solve button_clicks nq fuel q prog
  (w : World RngState) :
  let w0 := polled RngState button_clicks w in
  let r := solved RngState standard_normal Solve nq prog w0 in
  let p := posed RngState standard_normal nq prog w0 in
  let d := drawn RngState standard_normal nq w0 in
  let result :=
    AnimateIris_loop RngState standard_normal Solve button_clicks false nq
                     (S fuel) q prog w in
  ((button_clicks (polls w) < 1)%Z -> is_success r = true ->
   fst result = Ok (GetSolution r, p) /\
   log (snd result)
   = log w ++ EvPoll (button_clicks (polls w)) :: step_events false q d p r /\
   polls (snd result) = S (polls w) /\
   count is_poll (log (snd result)) = S (count is_poll (log w)) /\
   count is_sample (log (snd result)) = S (count is_sample (log w)) /\
   count is_solve (log (snd result)) = S (count is_solve (log w)) /\
   count is_sleep (log (snd result)) = count is_sleep (log w) /\
   published (log (snd result))
   = published (log w) ++ waypoints q (GetSolution r) /\
   length (waypoints q (GetSolution r)) = 21%nat) /\
  ((1 <= button_clicks (polls w))%Z -> result = (Ok (q, prog), w0)) /\
  ((button_clicks (polls w) < 1)%Z -> is_success r = false ->
   fst result = Raise AssertionError /\
   log (snd result)
   = log w ++ [EvPoll (button_clicks (polls w)); EvSample d; EvSolve p r] /\
   published (log (snd result)) = published (log w) /\
   count is_sample (log (snd result)) = S (count is_sample (log w)) /\
   count is_solve (log (snd result)) = S (count is_solve (log w)) /\
   count is_sleep (log (snd result)) = count is_sleep (log w)) /\
  (polls (snd result) = S (polls w) /\
   count is_poll (log (snd result)) = S (count is_poll (log w)) /\
   (count is_sample (log (snd result)) <= S (count is_sample (log w)))%nat /\
   (count is_solve (log (snd result)) <= S (count is_solve (log w)))%nat /\
   (length (published (log (snd result)))
    <= length (published (log w)) + 21)%nat).
Proof.
  cbv zeta.
  assert (Hok : (button_clicks (polls w) < 1)%Z ->
    is_success (solved RngState standard_normal Solve nq prog
                       (polled RngState button_clicks w)) = true ->
    AnimateIris_loop RngState standard_normal Solve button_clicks false nq
                     (S fuel) q prog w
    = (Ok (GetSolution (solved RngState standard_normal Solve nq prog
                               (polled RngState button_clicks w)),
           posed RngState standard_normal nq prog
                 (polled RngState button_clicks w)),
       mkWorld (region w) (snd (standard_normal nq (rng w)))
         (last (waypoints q
                  (GetSolution (solved RngState standard_normal Solve nq prog
                                       (polled RngState button_clicks w))))
               (positions w))
         (S (polls w))
         (log w ++ [EvPoll (button_clicks (polls w))]
          ++ step_events false q
               (drawn RngState standard_normal nq
                      (polled RngState button_clicks w))
               (posed RngState standard_normal nq prog
                      (polled RngState button_clicks w))
               (solved RngState standard_normal Solve nq prog
                       (polled RngState button_clicks w))))).
  { intros Hc Hr. rewrite loop_eq.
    destruct (Z.ltb_spec (button_clicks (polls w)) 1); [|lia].
    rewrite step_eq. cbv zeta. rewrite Hr.
    cbn [negb region rng positions polls log polled].
    rewrite <- !app_assoc. reflexivity. }
  assert (Hfail : (button_clicks (polls w) < 1)%Z ->
    is_success (solved RngState standard_normal Solve nq prog
                       (polled RngState button_clicks w)) = false ->
    AnimateIris_loop RngState standard_normal Solve button_clicks false nq
                     (S fuel) q prog w
    = (Raise AssertionError,
       mkWorld (region w) (snd (standard_normal nq (rng w)))
         (positions w) (S (polls w))
         (log w ++ [EvPoll (button_clicks (polls w))]
          ++ [EvSample (drawn RngState standard_normal nq
                              (polled RngState button_clicks w));
              EvSolve (posed RngState standard_normal nq prog
                             (polled RngState button_clicks w))
                      (solved RngState standard_normal Solve nq prog
                              (polled RngState button_clicks w))]))).
  { intros Hc Hr. rewrite loop_eq.
    destruct (Z.ltb_spec (button_clicks (polls w)) 1); [|lia].
    rewrite step_eq. cbv zeta. rewrite Hr. unfold failed_step_events.
    cbn [region rng positions polls log polled].
    rewrite <- !app_assoc. reflexivity. }
  assert (Hcount_ok : forall r0 p0 d0,
    count is_poll (step_events false q d0 p0 r0) = 0%nat /\
    count is_sample (step_events false q d0 p0 r0) = 1%nat /\
    count is_solve (step_events false q d0 p0 r0) = 1%nat /\
    count is_sleep (step_events false q d0 p0 r0) = 0%nat /\
    published (step_events false q d0 p0 r0)
    = waypoints q (GetSolution r0)).
  { intros r0 p0 d0. split; [|split; [|split; [|split]]];
      try apply published_step_events; unfold step_events;
      change (EvSample d0 :: EvSolve p0 r0 :: ?l)
        with ([EvSample d0; EvSolve p0 r0] ++ l);
      rewrite count_app, ?count_sleep_poses, ?count_poses by reflexivity;
      reflexivity. }
  split; [|split; [|split]].
  - intros Hc Hr. rewrite (Hok Hc Hr). cbn [fst snd log polls].
    destruct (Hcount_ok
                (solved RngState standard_normal Solve nq prog
                        (polled RngState button_clicks w))
                (posed RngState standard_normal nq prog
                       (polled RngState button_clicks w))
                (drawn RngState standard_normal nq
                       (polled RngState button_clicks w)))
      as (C1 & C2 & C3 & C4 & C5).
    rewrite !count_app, !published_app, C1, C2, C3, C4, C5, waypoints_length.
    cbn. repeat split; lia.
  - intros Hc. apply loop_stop, Hc.
  - intros Hc Hr. rewrite (Hfail Hc Hr). cbn [fst snd log polls].
    rewrite !count_app, !published_app. cbn. rewrite !app_nil_r.
    repeat split; lia.
  - destruct (Z.ltb_spec (button_clicks (polls w)) 1) as [Hc|Hc].
    + destruct (is_success (solved RngState standard_normal Solve nq prog
                                   (polled RngState button_clicks w)))
        eqn:Hr.
      * rewrite (Hok Hc eq_refl). cbn [fst snd log polls].
        destruct (Hcount_ok
                    (solved RngState standard_normal Solve nq prog
                            (polled RngState button_clicks w))
                    (posed RngState standard_normal nq prog
                           (polled RngState button_clicks w))
                    (drawn RngState standard_normal nq
                           (polled RngState button_clicks w)))
          as (C1 & C2 & C3 & C4 & C5).
        rewrite !count_app, !published_app, !length_app, C1, C2, C3, C5,
          waypoints_length.
        cbn. repeat split; lia.
      * rewrite (Hfail Hc eq_refl). cbn [fst snd log polls].
        rewrite !count_app, !published_app, !length_app. cbn.
        repeat split; lia.
    + rewrite loop_stop by exact Hc. cbn [snd log polls polled].
      rewrite !count_app, published_app, length_app. cbn.
      repeat split; lia.
Qed.

(** ** The claims that fail as stated *)

(** C1 as stated fails.  On the unit square, with the direction (1, 0)
    drawn, the program the step hands to the solver has the cost [q1]:
    the point (1, 0) is not a solution of it, no solution of it is within
    1e-6 of (1, 0), the point (-1, 0) is a solution, and a step with a
    solver that returns it arrives at (-1, 0). *)
Lemma C1_counterexample :
  let prog := UpdateCoefficients (make_prog 2 unit_square) [1; 0] in
  let tol := 1 # 1000000 in
  ~ prog_optimal tol prog [1; 0] /\
  (forall sol, prog_optimal tol prog sol -> ~ vclose tol sol [1; 0]) /\
  prog_optimal tol prog [-1; 0] /\
  fst (AnimateIris_step (list vec) scripted_normal unit_box_Solve true 2
         [0; 0] (make_prog 2 unit_square) (start unit_square [[1; 0]]))
  = Ok ([-1; 0], prog).
Proof.
  cbv zeta.
  assert (Hin : prog_feasible 0 (UpdateCoefficients (make_prog 2 unit_square)
                                                     [1; 0]) [-1; 0])
    by (split; [reflexivity|simpl; repeat split; lra]).
  split; [|split; [|split]].
  - intros [_ H]. specialize (H _ Hin). simpl in H. lra.
  - intros sol [_ H] Hcl. specialize (H _ Hin).
    inversion Hcl as [|x ? sol' ? [_ Hx] Hrest]; subst.
    inversion Hrest as [|y ? sol'' ? _ Hrest']; subst.
    inversion Hrest'; subst.
    simpl in H. lra.
  - exact (unit_box_Solve_optimal (1 # 1000000) (make_prog 2 unit_square)
             [1; 0] ltac:(lra) (same_constraints_refl _) eq_refl).
  - reflexivity.
Qed.


(** C7 as stated fails.  With a solver that finds no solution for the
    second direction drawn, the second step of the loop is started (two
    polls, two directions drawn, two programs solved) and does not run to
    completion: only the 21 poses of the first step are published, and
    the loop raises. *)
Lemma C7_counterexample :
  let result :=
    AnimateIris_loop (list vec) scripted_normal picky_Solve never_clicked
                     true 2 5 [0; 0] (make_prog 2 unit_square)
                     (start unit_square [[1; 0]; [0; 1]]) in
  fst result = Raise AssertionError /\
  sampled (log (snd result)) = [[1; 0]; [0; 1]] /\
  count is_solve (log (snd result)) = 2%nat /\
  count is_poll (log (snd result)) = 2%nat /\
  length (published (log (snd result))) = 21%nat.
Proof. vm_compute. repeat split. Qed.

(** C10 as stated fails.  Outside a notebook, with the button clicked
    before the first poll, the function draws no direction, solves no
    program and publishes the pose of the Chebyshev center only; with the
    button not clicked and a solver that reports no success, it draws one
    direction, solves one program, publishes no pose of a step and
    raises. *)
Lemma C10_counterexample :
  let stopped :=
    AnimateIris (list vec) scripted_normal unit_box_Solve already_clicked
                false 2 5 (1 # 10) (start unit_square [[1; 0]]) in
  let failed :=
    AnimateIris (list vec) scripted_normal failing_Solve never_clicked
                false 2 5 (1 # 10) (start unit_square [[1; 0]]) in
  fst stopped = Ok tt /\
  count is_sample (log (snd stopped)) = 0%nat /\
  count is_solve (log (snd stopped)) = 0%nat /\
  published (log (snd stopped)) = [[0; 0]] /\
  fst failed = Raise AssertionError /\
  count is_sample (log (snd failed)) = 1%nat /\
  count is_solve (log (snd failed)) = 1%nat /\
  published (log (snd failed)) = [[0; 0]].
Proof. repeat split. Qed.

(** ** The theorems at concrete inputs

    The unit square, the generator that plays back the direction (1, 0)
    (and then (0, 1)), and the solver for the unit box. *)

Lemma C1_witness :
  let step :=
    AnimateIris_step (list vec) scripted_normal unit_box_Solve true 2 in
  let w := start unit_square [[1; 0]] in
  let prog := make_prog 2 unit_square in
  step [0; 0] prog w
  = (Ok ([-1; 0], UpdateCoefficients prog [1; 0]), snd (step [0; 0] prog w))
  /\ in_region 0 unit_square [-1; 0]
  /\ (forall y, length y = 2%nat -> in_region 0 unit_square y ->
                dot [1; 0] [-1; 0] <= dot [1; 0] y + 0).
Proof.
  cbv zeta.
  assert (Hstep :
    AnimateIris_step (list vec) scripted_normal unit_box_Solve true 2
      [0; 0] (make_prog 2 unit_square) (start unit_square [[1; 0]])
    = (Ok ([-1; 0], UpdateCoefficients (make_prog 2 unit_square) [1; 0]),
       snd (AnimateIris_step (list vec) scripted_normal unit_box_Solve true 2
              [0; 0] (make_prog 2 unit_square)
              (start unit_square [[1; 0]]))))
    by (vm_compute; reflexivity).
  split; [exact Hstep|].
  destruct (C1_target_minimises_direction
              (list vec) scripted_normal unit_box_Solve true 2
              0 unit_square [0; 0] (make_prog 2 unit_square)
              (start unit_square [[1; 0]]) [-1; 0]
              (UpdateCoefficients (make_prog 2 unit_square) [1; 0])
              _ (same_constraints_refl _)
              (unit_box_Solve_optimal 0 (make_prog 2 unit_square) [1; 0]
                 (Qle_refl 0) (same_constraints_refl _) eq_refl)
              Hstep) as (_ & _ & Hin & Hmin & _).
  split; [exact Hin|exact Hmin].
Defined.

Lemma C2_witness :
  let step :=
    AnimateIris_step (list vec) scripted_normal unit_box_Solve true 2 in
  let w := start unit_square [[1; 0]] in
  let prog := make_prog 2 unit_square in
  length [0; 0] = length [-1; 0]
  /\ published (log (snd (step [0; 0] prog w)))
     = published (log w) ++ waypoints [0; 0] [-1; 0]
  /\ length (waypoints [0; 0] [-1; 0]) = 21%nat
  /\ veq (hd [] (waypoints [0; 0] [-1; 0])) [0; 0]
  /\ veq (last (waypoints [0; 0] [-1; 0]) []) [-1; 0].
Proof.
  cbv zeta. split; [reflexivity|].
  destruct (C2_step_waypoints
              (list vec) scripted_normal unit_box_Solve true 2
              [0; 0] (make_prog 2 unit_square) (start unit_square [[1; 0]])
              [-1; 0] (UpdateCoefficients (make_prog 2 unit_square) [1; 0])
              (snd (AnimateIris_step (list vec) scripted_normal
                      unit_box_Solve true 2 [0; 0]
                      (make_prog 2 unit_square)
                      (start unit_square [[1; 0]])))
              eq_refl ltac:(vm_compute; reflexivity))
    as (Hpub & _ & Hlen & _ & _ & _ & Hfirst & Hlast).
  split; [exact Hpub|]. split; [exact Hlen|].
  split; [exact Hfirst|exact Hlast].
Defined.

Lemma C3_witness :
  Forall (in_region (1 # 1000000) unit_square)
    (published
       (log (snd (AnimateIris (list vec) scripted_normal unit_box_Solve
                              never_clicked true 2 3 (1 # 10)
                              (start unit_square [[1; 0]; [0; 1]]))))).
Proof.
  refine (proj2 (C3_waypoints_stay_in_region
                   (list vec) scripted_normal unit_box_Solve never_clicked
                   true 2 (1 # 1000000) unit_square _ _)
                3%nat (1 # 10) (start unit_square [[1; 0]; [0; 1]])
                eq_refl eq_refl _ _).
  - exact scripted_normal_length.
  - intros d Hd p _.
    exact (proj1 (unit_box_Solve_optimal (1 # 1000000)
                    (make_prog 2 unit_square) d ltac:(lra)
                    (same_constraints_refl _) Hd)).
  - unfold in_region. simpl. repeat split; lra.
  - constructor.
Defined.

Lemma C5_witness :
  let w := start unit_square [[1; 0]] in
  let run :=
    AnimateIris (list vec) scripted_normal failing_Solve never_clicked
                true 2 5 (1 # 10) w in
  fst run = Raise AssertionError /\
  log (snd run)
  = [EvPublish [0; 0]; EvPrint; EvAddButton; EvPoll 0; EvSample [1; 0];
     EvSolve (UpdateCoefficients (make_prog 2 unit_square) [1; 0])
             (failing_Solve
                (UpdateCoefficients (make_prog 2 unit_square) [1; 0]))].
Proof.
  exact (proj1 (proj2 (proj2 (proj2 (proj2
           (C5_solver_failure_surfaces
              (list vec) scripted_normal failing_Solve never_clicked
              true 2)))))
           4%nat (1 # 10) (start unit_square [[1; 0]])
           ltac:(vm_compute; reflexivity) eq_refl).
Defined.

Lemma C7_witness :
  let w := start unit_square [[1; 0]; [0; 1]] in
  let loop :=
    AnimateIris_loop (list vec) scripted_normal unit_box_Solve never_clicked
                     true 2 in
  exists (w2 : World (list vec)) rest,
    published (log w2) = published (log w) ++ waypoints [0; 0] [-1; 0] /\
    polls w2 = 1%nat /\
    log (snd (loop 3%nat [0; 0] (make_prog 2 unit_square) w))
    = log w2 ++ rest /\
    (rest = [] \/ exists c rest', rest = EvPoll c :: rest').
Proof.
  cbv zeta.
  destruct (proj1 (proj2 (C7_polls_between_whole_steps
                            (list vec) scripted_normal unit_box_Solve
                            never_clicked true 2 2 [0; 0]
                            (make_prog 2 unit_square)
                            (start unit_square [[1; 0]; [0; 1]])))
                  ltac:(vm_compute; reflexivity) eq_refl)
    as (w2 & rest & _ & _ & Hp & Hpolls & _ & Hl & Hh).
  exists w2, rest.
  split; [exact Hp|]. split; [exact Hpolls|]. split; [exact Hl|exact Hh].
Defined.

Lemma C6_witness :
  AnimateIris_loop (list vec) scripted_normal unit_box_Solve already_clicked
                   true 2 1 [0; 0] (make_prog 2 unit_square)
                   (start unit_square [[1; 0]])
  = (Ok ([0; 0], make_prog 2 unit_square),
     polled (list vec) already_clicked (start unit_square [[1; 0]])).
Proof.
  exact (proj1 (C6_stop_at_entry
                  (list vec) scripted_normal unit_box_Solve already_clicked
                  true 2 0 [0; 0] (make_prog 2 unit_square)
                  (start unit_square [[1; 0]]) ltac:(vm_compute; discriminate))).
Defined.


Lemma C10_witness :
  fst (AnimateIris_loop (list vec) scripted_normal unit_box_Solve
                        never_clicked false 2 5 [0; 0]
                        (make_prog 2 unit_square)
                        (start unit_square [[1; 0]]))
  = Ok ([-1; 0], UpdateCoefficients (make_prog 2 unit_square) [1; 0]).
Proof.
  exact (proj1 (proj1 (C10_one_step_outside_notebook
                         (list vec) scripted_normal unit_box_Solve
                         never_clicked 2 4 [0; 0] (make_prog 2 unit_square)
                         (start unit_square [[1; 0]]))
                      ltac:(vm_compute; reflexivity) eq_refl)).
Defined.


(** * Further properties of the function *)

(** ** Lists and logs *)

Lemma last_app_nonempty {T} (l1 l2 : list T) (d e : T) :
  l2 <> [] -> last (l1 ++ l2) d = last l2 e.
Proof.
  intros H. induction l1 as [|x l1 IH].
  - destruct l2 as [|y l2]; [congruence|].
    simpl app. rewrite (last_cons_default y d), (last_cons_default y e).
    reflexivity.
  - simpl app. rewrite last_cons_default.
    destruct (l1 ++ l2) eqn:E.
    + apply app_eq_nil in E. destruct E; congruence.
    + rewrite <- E, <- (last_cons_default x d), <- IH.
      rewrite E, !last_cons_default. reflexivity.
Qed.

Lemma waypoints_nonempty q q_next : waypoints q q_next <> [].
Proof.
  intros H. pose proof (waypoints_length q q_next) as L.
  rewrite H in L. discriminate.
Qed.

Lemma sampled_app l1 l2 : sampled (l1 ++ l2) = sampled l1 ++ sampled l2.
Proof.
  induction l1 as [|e l1 IH]; simpl; auto.
  destruct e; simpl; rewrite ?IH; auto.
Qed.

Lemma solved_progs_app l1 l2 :
  solved_progs (l1 ++ l2) = solved_progs l1 ++ solved_progs l2.
Proof.
  induction l1 as [|e l1 IH]; simpl; auto.
  destruct e; simpl; rewrite ?IH; auto.
Qed.

Lemma sampled_poses nb ws : sampled (flat_map (pose_events nb) ws) = [].
Proof. induction ws as [|p ws IH]; simpl; auto. destruct nb; auto. Qed.

Lemma solved_progs_poses nb ws :
  solved_progs (flat_map (pose_events nb) ws) = [].
Proof. induction ws as [|p ws IH]; simpl; auto. destruct nb; auto. Qed.

Lemma whole_steps_quiet f nb q0 l q :
  quiet f -> whole_steps nb q0 l q -> count f l = 0%nat.
Proof.
  intros (Hpoll & Hsample & Hsolve & Hpub & Hsleep).
  induction 1 as [|l q c d prog r Hl IH Hc Hr]; [reflexivity|].
  rewrite count_app, IH. unfold step_events, count.
  cbn [filter]. rewrite Hpoll, Hsample, Hsolve.
  fold (count f (flat_map (pose_events nb) (waypoints q (GetSolution r)))).
  apply count_poses; auto.
Qed.

Lemma loop_end_quiet f tail : quiet f -> loop_end tail -> count f tail = 0%nat.
Proof.
  intros (Hpoll & Hsample & Hsolve & _) H.
  destruct H; unfold count, failed_step_events; cbn [filter];
    rewrite ?Hpoll, ?Hsample, ?Hsolve; reflexivity.
Qed.



(** ** The whole function *)

Section WholeFunction.

Variable RngState : Type.
Variable standard_normal : nat -> RngState -> vec * RngState.
Variable Solve : MathematicalProgram -> MathematicalProgramResult.
Variable button_clicks : nat -> Z.
Variable running_as_notebook : bool.
Variable nq : nat.

Local Abbreviation step :=
  (AnimateIris_step RngState standard_normal Solve running_as_notebook nq).
Local Abbreviation loop :=
  (AnimateIris_loop RngState standard_normal Solve button_clicks
                    running_as_notebook nq).
Local Abbreviation run :=
  (AnimateIris RngState standard_normal Solve button_clicks
               running_as_notebook nq).
Local Abbreviation drawn := (drawn RngState standard_normal nq).
Local Abbreviation posed := (posed RngState standard_normal nq).
Local Abbreviation solved := (solved RngState standard_normal Solve nq).
Local Abbreviation polled := (polled RngState button_clicks).

(** X1.  The function adds the Meshcat button exactly once, after the
    first pose and before anything the loop does.  It deletes the button
    exactly when it returns normally, as its last act; when a step raises,
    the button is not deleted. *)
Theorem button_added_once_deleted_on_return fuel speed (w : World RngState) :
  count is_add_button (log (snd (run fuel speed w)))
  = S (count is_add_button (log w)) /\
  (exists rest,
      log (snd (run fuel speed w))
      = log w ++ [EvPublish (ChebyshevCenter (region w)); EvPrint;
                 EvAddButton] ++ rest /\
      count is_add_button rest = 0%nat) /\
  match fst (run fuel speed w) with
  | Ok _ =>
      count is_delete_button (log (snd (run fuel speed w)))
      = S (count is_delete_button (log w)) /\
      exists before, log (snd (run fuel speed w)) = before ++ [EvDeleteButton]
  | _ =>
      count is_delete_button (log (snd (run fuel speed w)))
      = count is_delete_button (log w)
  end.
Proof.
  destruct (run_shape RngState standard_normal Solve button_clicks
              running_as_notebook nq fuel speed w)
    as (l & qe & tail & fin & Hlog & Hw & Ht & Hf & _).
  assert (Qa : quiet is_add_button) by (repeat split).
  assert (Qd : quiet is_delete_button) by (repeat split).
  pose proof (whole_steps_quiet _ _ _ _ _ Qa Hw) as Ha1.
  pose proof (loop_end_quiet _ _ Qa Ht) as Ha2.
  pose proof (whole_steps_quiet _ _ _ _ _ Qd Hw) as Hd1.
  pose proof (loop_end_quiet _ _ Qd Ht) as Hd2.
  assert (Hfa : count is_add_button fin = 0%nat)
    by (destruct (fst (run fuel speed w)); subst fin; reflexivity).
  split; [|split].
  - rewrite Hlog, !count_app, Ha1, Ha2, Hfa. cbn. lia.
  - exists (l ++ tail ++ fin). split; [exact Hlog|].
    rewrite !count_app, Ha1, Ha2, Hfa. reflexivity.
  - destruct (fst (run fuel speed w)); subst fin.
    + split.
      * rewrite Hlog, !count_app, Hd1, Hd2. cbn. lia.
      * eexists. rewrite Hlog, !app_assoc. reflexivity.
    + rewrite Hlog, !count_app, Hd1, Hd2. cbn. lia.
    + rewrite Hlog, !count_app, Hd1, Hd2. cbn. lia.
Qed.


(** X3.  When the function ends, however it ends, the positions the
    plant's context holds are the pose published last: every position set
    was published. *)
Theorem plant_holds_last_published_pose fuel speed (w : World RngState) :
  positions (snd (run fuel speed w))
  = last (published (log (snd (run fuel speed w)))) [].
Proof.
  rewrite run_eq, init_eq. cbn [snd].
  set (w1 := mkWorld (region w) (rng w) (ChebyshevCenter (region w))
                     (polls w)
                     (log w ++ [EvPublish (ChebyshevCenter (region w));
                                EvPrint; EvAddButton])).
  pose (J := fun (w : World RngState) =>
               positions w = last (published (log w)) [] /\
               published (log w) <> []).
  assert (Hpoll : forall w0, J w0 -> J (polled w0)).
  { intros w0 [H1 H2]. unfold J.
    cbn [log positions polled].
    rewrite published_app. cbn. rewrite app_nil_r. auto. }
  assert (H : match loop fuel (ChebyshevCenter (region w))
                         (make_prog nq (region w)) w1 with
              | (_, w') => J w'
              end).
  { pose proof (loop_rule RngState standard_normal Solve button_clicks
                  running_as_notebook nq
                  (fun _ _ w => J w) (fun _ _ w => J w) J J) as Rule.
    specialize (fun a b c => Rule a b c fuel (ChebyshevCenter (region w))
                                  (make_prog nq (region w)) w1).
    match type of Rule with
    | _ -> _ -> _ -> _ -> ?G => assert (HG : G); [apply Rule; clear Rule|]
    end.
    - auto.
    - intros q prog w0 HJ _. auto.
    - intros q prog w0 HJ _. apply Hpoll in HJ. destruct HJ as [H1 H2].
      rewrite step_eq. cbv zeta.
      destruct (is_success (solved prog (polled w0))).
      + assert (J (mkWorld (region (polled w0))
                      (snd (standard_normal nq (rng (polled w0))))
                      (last (waypoints q (GetSolution
                                            (solved prog (polled w0))))
                            (positions (polled w0)))
                      (polls (polled w0))
                      (log (polled w0)
                       ++ step_events running_as_notebook q
                            (drawn (polled w0)) (posed prog (polled w0))
                            (solved prog (polled w0))))); [|tauto].
        unfold J. cbn [positions log].
        rewrite published_app, published_step_events.
        split.
        * rewrite (last_app_nonempty _ _ [] (positions (polled w0)))
            by apply waypoints_nonempty.
          reflexivity.
        * intros E. apply app_eq_nil in E. destruct E as [_ E].
          exact (waypoints_nonempty _ _ E).
      + unfold J. cbn [positions log].
        rewrite published_app. cbn. rewrite app_nil_r. auto.
    - unfold J, w1. cbn [positions log]. rewrite published_app. cbn.
      split.
      + rewrite last_last. reflexivity.
      + intros E. apply app_eq_nil in E. destruct E; discriminate.
    - destruct (loop fuel _ _ w1) as [[st| |] w']; exact HG. }
  destruct (loop fuel _ _ w1) as [[st| |] w']; cbn [snd positions log];
    destruct H as [H1 H2]; auto.
  rewrite published_app. cbn. rewrite app_nil_r. exact H1.
Qed.

End WholeFunction.

(** ** The generator and the programs solved *)

Section Draws.

Variable RngState : Type.
Variable standard_normal : nat -> RngState -> vec * RngState.
Variable Solve : MathematicalProgram -> MathematicalProgramResult.
Variable button_clicks : nat -> Z.
Variable running_as_notebook : bool.
Variable nq : nat.

Local Abbreviation step :=
  (AnimateIris_step RngState standard_normal Solve running_as_notebook nq).
Local Abbreviation loop :=
  (AnimateIris_loop RngState standard_normal Solve button_clicks
                    running_as_notebook nq).
Local Abbreviation run :=
  (AnimateIris RngState standard_normal Solve button_clicks
               running_as_notebook nq).
Local Abbreviation drawn := (drawn RngState standard_normal nq).
Local Abbreviation posed := (posed RngState standard_normal nq).
Local Abbreviation solved := (solved RngState standard_normal Solve nq).
Local Abbreviation polled := (polled RngState button_clicks).

(** What a step, completed or not, adds to the directions drawn and to
    the programs solved, and where it leaves the generator. *)
Lemma step_draws q prog (w : World RngState) :
  sampled (log (snd (step q prog w))) = sampled (log w) ++ [drawn w] /\
  solved_progs (log (snd (step q prog w)))
  = solved_progs (log w) ++ [posed prog w] /\
  rng (snd (step q prog w)) = snd (standard_normal nq (rng w)).
Proof.
  rewrite step_eq. cbv zeta.
  destruct (is_success (solved prog w)); cbn [snd log rng];
    rewrite sampled_app, solved_progs_app.
  - unfold step_events. cbn [sampled solved_progs].
    rewrite sampled_poses, solved_progs_poses. repeat split.
  - repeat split.
Qed.

Lemma loop_draws fuel : forall q prog (w : World RngState),
  exists n,
    sampled (log (snd (loop fuel q prog w)))
    = sampled (log w) ++ draws standard_normal nq n (rng w) /\
    solved_progs (log (snd (loop fuel q prog w)))
    = solved_progs (log w)
      ++ map (UpdateCoefficients prog) (draws standard_normal nq n (rng w)) /\
    rng (snd (loop fuel q prog w)) = rng_after standard_normal nq n (rng w).
Proof.
  induction fuel as [|fuel IH]; intros q prog w.
  - exists 0%nat. cbn. rewrite !app_nil_r. auto.
  - rewrite loop_eq.
    destruct (button_clicks (polls w) <? 1)%Z.
    + destruct (step_draws q prog (polled w)) as (Hs & Hp & Hr).
      pose proof (step_outcome RngState standard_normal Solve
                    running_as_notebook nq q prog (polled w)) as Ho.
      assert (Hs0 : sampled (log (polled w)) = sampled (log w))
        by (cbn [log polled]; rewrite sampled_app; apply app_nil_r).
      assert (Hp0 : solved_progs (log (polled w)) = solved_progs (log w))
        by (cbn [log polled]; rewrite solved_progs_app; apply app_nil_r).
      rewrite Hs0 in Hs. rewrite Hp0 in Hp.
      change (rng (polled w)) with (rng w) in Hr.
      change (drawn (polled w)) with (fst (standard_normal nq (rng w))) in Hs.
      change (posed prog (polled w))
        with (UpdateCoefficients prog (fst (standard_normal nq (rng w))))
        in Hp, Ho.
      destruct (step q prog (polled w)) as [o w1].
      cbn [fst snd] in *.
      assert (One : sampled (log w1)
                    = sampled (log w) ++ draws standard_normal nq 1 (rng w) /\
                    solved_progs (log w1)
                    = solved_progs (log w)
                      ++ map (UpdateCoefficients prog)
                             (draws standard_normal nq 1 (rng w)) /\
                    rng w1 = rng_after standard_normal nq 1 (rng w))
        by (cbn [draws map rng_after]; auto).
      destruct (is_success (solved prog (polled w))); subst o.
      * destruct running_as_notebook; cbn [negb fst snd].
        -- destruct (IH (GetSolution (solved prog (polled w)))
                        (UpdateCoefficients prog
                           (fst (standard_normal nq (rng w)))) w1)
             as (n & Hn1 & Hn2 & Hn3).
           exists (S n). rewrite Hn1, Hn2, Hn3, Hs, Hp, Hr.
           cbn [draws map rng_after]. rewrite <- !app_assoc.
           repeat split.
        -- exists 1%nat. exact One.
      * exists 1%nat. exact One.
    + exists 0%nat. cbn [snd log rng polled draws map rng_after].
      rewrite sampled_app, solved_progs_app. cbn. rewrite !app_nil_r.
      auto.
Qed.

(** X4.  Every program the function hands to the solver is the program of
    the region with one of the directions drawn as its cost, in the order
    the directions were drawn and one program per direction: the cost of
    ones the program is created with is never solved, costs do not add
    up from step to step and the constraints stay those of the region. *)
Theorem solved_programs_follow_directions fuel speed (w : World RngState) :
  exists ds,
    sampled (log (snd (run fuel speed w))) = sampled (log w) ++ ds /\
    solved_progs (log (snd (run fuel speed w)))
    = solved_progs (log w)
      ++ map (fun d => {| num_vars := nq;
                          con_A := A (region w);
                          con_lb := minus_inf_like (b (region w));
                          con_ub := map Fin (b (region w));
                          cost_coeffs := d |}) ds.
Proof.
  rewrite run_eq, init_eq. cbn [snd].
  set (w1 := mkWorld (region w) (rng w) (ChebyshevCenter (region w))
                     (polls w)
                     (log w ++ [EvPublish (ChebyshevCenter (region w));
                                EvPrint; EvAddButton])).
  destruct (loop_draws fuel (ChebyshevCenter (region w))
              (make_prog nq (region w)) w1) as (n & Hs & Hp & _).
  exists (draws standard_normal nq n (rng w)).
  assert (Hs1 : sampled (log w1) = sampled (log w))
    by (unfold w1; cbn [log]; rewrite sampled_app; apply app_nil_r).
  assert (Hp1 : solved_progs (log w1) = solved_progs (log w))
    by (unfold w1; cbn [log]; rewrite solved_progs_app; apply app_nil_r).
  rewrite Hs1 in Hs. rewrite Hp1 in Hp.
  change (rng w1) with (rng w) in Hs, Hp.
  destruct (loop fuel _ _ w1) as [[st| |] w']; cbn [snd log] in *;
    rewrite ?sampled_app, ?solved_progs_app, ?app_nil_r;
    split; assumption.
Qed.

(** X5.  The directions the function draws are consecutive outputs of the
    generator, each of [nq] samples asked for, none skipped and none used
    twice: after a run that drew [n] directions the generator is in the
    state [n] draws lead to. *)
Theorem directions_are_consecutive_draws fuel speed (w : World RngState) :
  exists n,
    sampled (log (snd (run fuel speed w)))
    = sampled (log w) ++ draws standard_normal nq n (rng w) /\
    rng (snd (run fuel speed w)) = rng_after standard_normal nq n (rng w).
Proof.
  rewrite run_eq, init_eq. cbn [snd].
  set (w1 := mkWorld (region w) (rng w) (ChebyshevCenter (region w))
                     (polls w)
                     (log w ++ [EvPublish (ChebyshevCenter (region w));
                                EvPrint; EvAddButton])).
  destruct (loop_draws fuel (ChebyshevCenter (region w))
              (make_prog nq (region w)) w1) as (n & Hs & _ & Hr).
  exists n.
  assert (Hs1 : sampled (log w1) = sampled (log w))
    by (unfold w1; cbn [log]; rewrite sampled_app; apply app_nil_r).
  rewrite Hs1 in Hs.
  change (rng w1) with (rng w) in Hs, Hr.
  destruct (loop fuel _ _ w1) as [[st| |] w']; cbn [snd log rng] in *;
    rewrite ?sampled_app, ?app_nil_r; split; assumption.
Qed.

End Draws.

(** ** The poses of one step *)

Lemma nth_interp q q_next t k :
  length q = length q_next -> (k < length q)%nat ->
  nth k (interp q q_next t) 0 == t * nth k q_next 0 + (1 - t) * nth k q 0.
Proof.
  unfold interp. revert q_next k.
  induction q as [|x q IH]; intros [|y q_next] [|k] Hlen Hk; simpl in *;
    try discriminate; try lia.
  - reflexivity.
  - apply IH; [congruence|lia].
Qed.

Lemma nth_waypoints q q_next i :
  (i <= 20)%nat ->
  nth i (waypoints q q_next) [] = interp q q_next (nth i t_grid 0).
Proof.
  intros Hi. unfold waypoints.
  rewrite (nth_indep _ [] (interp q q_next 0))
    by (rewrite length_map, t_grid_length; lia).
  apply map_nth.
Qed.

(** X6.  From each pose of a step to the next, every coordinate advances
    by one twentieth of its way from the pose the step leaves to its
    target: the poses are evenly spaced, so the displacement per frame
    grows with the length of the step. *)
Theorem waypoints_evenly_spaced q q_next i k :
  length q = length q_next ->
  (i < 20)%nat ->
  (k < length q)%nat ->
  nth k (nth (S i) (waypoints q q_next) []) 0
  - nth k (nth i (waypoints q q_next) []) 0
  == (1 # 20) * (nth k q_next 0 - nth k q 0).
Proof.
  intros Hlen Hi Hk.
  rewrite !nth_waypoints by lia.
  rewrite !nth_interp by assumption.
  rewrite (t_grid_nth (S i)) by lia.
  rewrite (t_grid_nth i) by lia.
  rewrite Nat2Z.inj_succ. unfold Z.succ. rewrite inject_Z_plus.
  change (inject_Z 1) with 1. ring.
Qed.

(** ** The loop in a notebook *)

(** X8.  In a notebook, with a solver that always reports success, the
    loop goes on exactly as long as the polls find the button not
    clicked: if the first [n] polls find it not clicked and the next one
    finds it clicked, the loop returns after exactly [n] whole steps,
    [n + 1] polls and [21 * n] poses; and while no poll has found the
    button clicked the loop has not returned: a bound of [fuel <= n]
    iterations is hit, after [fuel] whole steps. *)
Theorem loop_runs_until_click
  RngState standard_normal Solve button_clicks nq n :
  forall fuel q prog (w : World RngState),
  (forall p, is_success (Solve p) = true) ->
  (forall k, (k < n)%nat -> (button_clicks (polls w + k)%nat < 1)%Z) ->
  let result :=
    AnimateIris_loop RngState standard_normal Solve button_clicks true nq
                     fuel q prog w in
  ((1 <= button_clicks (polls w + n)%nat)%Z -> (n < fuel)%nat ->
   (exists st, fst result = Ok st) /\
   polls (snd result) = (polls w + n + 1)%nat /\
   count is_sample (log (snd result)) = (count is_sample (log w) + n)%nat /\
   length (published (log (snd result)))
   = (length (published (log w)) + 21 * n)%nat) /\
  ((fuel <= n)%nat ->
   fst result = OutOfFuel /\
   count is_sample (log (snd result))
   = (count is_sample (log w) + fuel)%nat /\
   length (published (log (snd result)))
   = (length (published (log w)) + 21 * fuel)%nat).
Proof.
  induction n as [|n IH]; intros fuel q prog w Hsolve Hfree; cbv zeta.
  - split.
    + intros Hclick Hfuel. destruct fuel as [|fuel]; [lia|].
      rewrite Nat.add_0_r in Hclick.
      rewrite loop_stop by exact Hclick. cbn [fst snd polls log polled].
      rewrite count_app, published_app. cbn. rewrite app_nil_r.
      split; [eauto|]. repeat split; lia.
    + intros Hfuel. assert (fuel = 0%nat) by lia. subst fuel.
      cbn. repeat split; lia.
  - assert (Hfirst : (button_clicks (polls w) < 1)%Z).
    { specialize (Hfree 0%nat). rewrite Nat.add_0_r in Hfree.
      apply Hfree. lia. }
    destruct fuel as [|fuel]; [split; [lia|intros _; cbn; repeat split; lia]|].
    rewrite loop_eq.
    destruct (Z.ltb_spec (button_clicks (polls w)) 1) as [_|]; [|lia].
    destruct (step_facts RngState standard_normal Solve true nq q prog
                (polled RngState button_clicks w))
      as (_ & Hcount & Hpub & Hout).
    unfold solved in Hpub, Hout. rewrite Hsolve in Hpub, Hout.
    destruct (AnimateIris_step RngState standard_normal Solve true nq q prog
                (polled RngState button_clicks w)) as [o w1] eqn:Hstep.
    cbn [fst snd] in Hcount, Hpub, Hout. subst o.
    pose proof (step_ok_inv _ _ _ _ _ _ _ _ _ _ _ Hstep)
      as (_ & _ & _ & _ & _ & Hpolls).
    cbn [negb fst snd].
    cbn [polls log polled] in Hpolls, Hcount, Hpub.
    rewrite count_app in Hcount. rewrite published_app in Hpub.
    cbn in Hcount, Hpub. rewrite app_nil_r in Hpub.
    assert (Hlen : length (published (log w1))
                   = (length (published (log w)) + 21)%nat)
      by (rewrite Hpub, length_app, waypoints_length; reflexivity).
    specialize (IH fuel
                  (GetSolution
                     (solved RngState standard_normal Solve nq prog
                             (polled RngState button_clicks w)))
                  (posed RngState standard_normal nq prog
                         (polled RngState button_clicks w))
                  w1 Hsolve).
    cbv zeta in IH.
    assert (Hfree' : forall k, (k < n)%nat ->
                       (button_clicks (polls w1 + k)%nat < 1)%Z).
    { intros k Hk. rewrite Hpolls.
      replace (S (polls w) + k)%nat with (polls w + S k)%nat by lia.
      apply Hfree. lia. }
    destruct (IH Hfree') as [IH1 IH2].
    unfold solved in IH1, IH2.
    split.
    + intros Hclick Hfuel.
      replace (polls w + S n)%nat with (polls w1 + n)%nat in Hclick
        by (rewrite Hpolls; lia).
      destruct (IH1 Hclick ltac:(lia)) as (Hok & Hp & Hc & Hl).
      split; [exact Hok|]. rewrite Hp, Hc, Hl, Hpolls, Hlen.
      repeat split; lia.
    + intros Hfuel.
      destruct (IH2 ltac:(lia)) as (Hof & Hc & Hl).
      split; [exact Hof|]. rewrite Hc, Hl, Hlen.
      split; lia.
Qed.

(** ** The further theorems at concrete inputs *)

Lemma waypoints_evenly_spaced_witness :
  nth 0 (nth 4 (waypoints [0; 0] [-1; 0]) []) 0
  - nth 0 (nth 3 (waypoints [0; 0] [-1; 0]) []) 0
  == (1 # 20) * (nth 0 [-1; 0] 0 - nth 0 [0; 0] 0).
Proof.
  exact (waypoints_evenly_spaced [0; 0] [-1; 0] 3 0 eq_refl
           ltac:(vm_compute; lia) ltac:(vm_compute; lia)).
Defined.

Lemma loop_runs_until_click_witness :
  exists st,
    fst (AnimateIris_loop (list vec) scripted_normal unit_box_Solve
                          (clicked_before 2) true 2 5 [0; 0]
                          (make_prog 2 unit_square)
                          (start unit_square [[1; 0]; [0; 1]]))
    = Ok st.
Proof.
  refine (proj1 (proj1 (loop_runs_until_click
                          (list vec) scripted_normal unit_box_Solve
                          (clicked_before 2) 2 2 5 [0; 0]
                          (make_prog 2 unit_square)
                          (start unit_square [[1; 0]; [0; 1]]) _ _)
                       _ _)).
  - intros p. reflexivity.
  - intros k Hk. cbn [polls start Nat.add].
    unfold clicked_before.
    destruct (Nat.ltb_spec k 2); [reflexivity|lia].
  - vm_compute. discriminate.
  - lia.
Defined.
